(** * pad_etl: value curves, card-array unflattening, bonus decoding and the
    database wrapper's upsert

    A shallow embedding of three modules of [pad_api_data/pad_etl]:
    - [data/card.py]: [Curve] and [unflatten];
    - [data/bonus.py]: [Bonus.__init__];
    - [storage/db_util.py]: [DbWrapper], over any connection and any
      implementation of the [SqlItem] interface.

    A relational store with a record type for it (module [Store]) instantiates
    the two interfaces, to run the wrapper end to end.

    The numbers of a curve are Python [int]s and binary64 floats, with the
    float operations as [SpecFloat] specifies them; [math.pow] is taken as
    given. *)

From Stdlib Require Import ZArith QArith Qround Lia SpecFloat.
From stdpp Require Import gmap strings list pretty.

Local Open Scope Z_scope.

(** ** Python values *)

Module Py.

(** A value as JSON files and database cells hold it. A [float] is kept as
    the rational it denotes. *)
#[local] Set Warnings "-register-all".
Inductive value :=
| PNone
| PBool (b : bool)
| PInt (z : Z)
| PFloat (q : Q)
| PStr (s : string)
| PList (l : list value).

(** Equality of values is decidable. *)
Definition value_eq_dec (x y : value) : {x = y} + {x ≠ y}.
Proof.
  revert x y. fix IH 1. intros x y.
  destruct x, y; try (right; discriminate).
  - left. reflexivity.
  - destruct (bool_eq_dec b b0) as [->|N]; [left; reflexivity | right; congruence].
  - destruct (Z.eq_dec z z0) as [->|N]; [left; reflexivity | right; congruence].
  - destruct q as [n d], q0 as [n0 d0].
    destruct (Z.eq_dec n n0) as [->|N]; [|right; congruence].
    destruct (Pos.eq_dec d d0) as [->|N]; [left; reflexivity | right; congruence].
  - destruct (String.string_dec s s0) as [->|N]; [left; reflexivity | right; congruence].
  - destruct (list_eq_dec (dec := IH) l l0) as [->|N];
      [left; reflexivity | right; congruence].
Defined.

#[export] Instance value_eq_decision : EqDecision value := value_eq_dec.

(** The built-in exceptions the modelled code can meet. *)
Inductive exn :=
| KeyError (key : string)
| IndexError
| TypeError
| AttributeError
| ValueError
| Exception.

(** Truth value of an object: [None], [False], zero, the empty string and
    the empty list are false. *)
Definition truthy (v : value) : bool :=
  match v with
  | PNone => false
  | PBool b => b
  | PInt z => negb (z =? 0)
  | PFloat q => negb (Qeq_bool q 0)
  | PStr s => negb (String.eqb s "")
  | PList l => match l with [] => false | _ => true end
  end.

(** [v == 0]. *)
Definition eq_zero (v : value) : bool :=
  match v with
  | PInt z => z =? 0
  | PBool b => negb b
  | PFloat q => Qeq_bool q 0
  | _ => false
  end.

(** Rounding towards zero, as [int()] does on a [float]. *)
Definition truncate (q : Q) : Z :=
  if Qle_bool 0 q then Qfloor q else Qceiling q.

(** The parts of the built-ins that are taken as given: [int()] on a string
    ([None] when it raises [ValueError]) and [str()] on floats and lists. *)
Class Builtins := {
  int_of_str : string -> option Z;
  repr : value -> string
}.

(** [int(v)]. *)
Definition int `{Builtins} (v : value) : exn + Z :=
  match v with
  | PInt z => inr z
  | PBool b => inr (if b then 1 else 0)
  | PFloat q => inr (truncate q)
  | PStr s => match int_of_str s with Some z => inr z | None => inl ValueError end
  | PNone | PList _ => inl TypeError
  end.

(** [str(v)]. *)
Definition str `{Builtins} (v : value) : string :=
  match v with
  | PStr s => s
  | PInt z => pretty z
  | PBool b => if b then "True" else "False"
  | PNone => "None"
  | PFloat _ | PList _ => repr v
  end.

End Py.

(** ** Python numbers: [int] and binary64 [float] *)

Module Num.

(** A number of a curve: a Python [int], or a [float], which is a binary64
    number of IEEE 754 as [SpecFloat] specifies it (53 bits of precision,
    exponents below 1024). *)
Inductive number :=
| Int (z : Z)
| Float (f : spec_float).

(** The exceptions the arithmetic of a curve can raise. *)
Inductive error := ZeroDivisionError | OverflowError | ValueError.

#[export] Instance error_bind : MBind (sum error) :=
  λ A B k m, match m with inr a => k a | inl e => inl e end.

(** [1.0] and [0.0]. *)
Definition one : spec_float := S754_finite false 4503599627370496 (-52).
Definition zero : spec_float := S754_zero false.

(** [float(z)]: the binary64 number nearest to [z], ties to even;
    [OverflowError] when [z] is out of range. *)
Definition float_of_int (z : Z) : error + spec_float :=
  match binary_normalize 53 1024 z 0 false with
  | S754_infinity _ => inl OverflowError
  | f => inr f
  end.

(** The conversion of a number into a C double. *)
Definition to_float (x : number) : error + spec_float :=
  match x with
  | Int z => float_of_int z
  | Float f => inr f
  end.

(** A binary operator: exact on two [int]s, the binary64 operation on the
    converted operands otherwise. *)
Definition arith (on_int : Z → Z → Z)
    (on_float : spec_float → spec_float → spec_float) (x y : number)
    : error + number :=
  match x, y with
  | Int a, Int b => inr (Int (on_int a b))
  | _, _ => a ← to_float x; b ← to_float y; inr (Float (on_float a b))
  end.

(** [x + y], [x - y] and [x * y]. *)
Definition add : number → number → error + number := arith Z.add (SFadd 53 1024).
Definition sub : number → number → error + number := arith Z.sub (SFsub 53 1024).
Definition mul : number → number → error + number := arith Z.mul (SFmul 53 1024).

(** [a / b] on two [int]s: the binary64 number nearest to the quotient,
    ties to even. *)
Definition int_truediv (a b : Z) : error + spec_float :=
  if b =? 0 then inl ZeroDivisionError
  else if a =? 0 then inr (S754_zero (b <? 0))
  else
    let '(m, e, l) := SFdiv_core_binary 53 1024 (Z.abs a) 0 (Z.abs b) 0 in
    match binary_round_aux 53 1024 (xorb (a <? 0) (b <? 0)) m e l with
    | S754_infinity _ => inl OverflowError
    | f => inr f
    end.

(** The truth value of a number: zero is false, and so is [-0.0]. *)
Definition nonzero (x : number) : bool :=
  match x with
  | Int z => negb (z =? 0)
  | Float (S754_zero _) => false
  | Float _ => true
  end.

(** The integer a float denotes, when it denotes one. *)
Definition float_int (f : spec_float) : option Z :=
  match f with
  | S754_zero _ => Some 0
  | S754_finite s m e =>
    if 0 <=? e then Some (cond_Zopp s (Zpos m * 2 ^ e))
    else if Zpos m mod 2 ^ (- e) =? 0
         then Some (cond_Zopp s (Zpos m / 2 ^ (- e)))
         else None
  | _ => None
  end.

(** [x == y]: a float and an [int] are compared by their exact values. *)
Definition equal (x y : number) : bool :=
  match x, y with
  | Int a, Int b => a =? b
  | Float f, Float g => SFeqb f g
  | Float f, Int z | Int z, Float f => bool_decide (float_int f = Some z)
  end.

(** [math.pow] on two C doubles, taken as given: the C library's [pow] under
    Python's error handling. It returns a float or raises [ValueError]
    ("math domain error") or [OverflowError] ("math range error").
    [pow(1.0, y)] is [1.0] for every [y], a NaN included, as the
    documentation of [math.pow] states; [pow(0.0, y)] is [0.0] for every
    [y > 0], infinite or not, as Annex F of C99 fixes it. Nothing else is
    assumed of it. *)
Class Libm := {
  pow : spec_float → spec_float → error + spec_float;
  pow_one : ∀ y, pow one y = inr one;
  pow_zero : ∀ y, SFltb zero y = true → pow zero y = inr zero;
  pow_raises : ∀ x y e, pow x y = inl e → e = ValueError ∨ e = OverflowError
}.

(** [z] shifted left by [n] bits. *)
Definition shl (z : positive) (n : nat) : positive := Nat.iter n xO z.

(** The number of bits of [z]. *)
Definition bits (z : positive) : Z := Zpos (digits2_pos z).

(** The binary64 number that denotes the integer [z] of at most 53 bits,
    with the sign [s]: the mantissa is [z] shifted to 53 bits. *)
Definition normal (s : bool) (z : positive) : spec_float :=
  S754_finite s (shl z (Z.to_nat (53 - bits z))) (bits z - 53).

Definition normal_int (z : Z) : spec_float :=
  match z with
  | Z0 => S754_zero false
  | Zpos p => normal false p
  | Zneg p => normal true p
  end.


End Num.

(** ** [data/card.py] *)

Module Card.
Import Py Num.

(** *** [Curve] *)

Record Curve := {
  min_value : number;
  max_value : number;
  scale : number;
  max_level : Z
}.

(** [Curve.__init__(self, min_value, max_value=None, scale=1.0, max_level=10)].
    The fallback maximum is computed, when the given one is [None] or zero,
    from the [max_level] argument, before the stored level is clamped to at
    least 1. *)
Definition Curve_init (min_v : number) (max_v : option number)
    (scale_v : number) (max_level_v : Z) : error + Curve :=
  max_value_v ← match max_v with
                 | Some v => if nonzero v then inr v
                             else mul min_v (Int max_level_v)
                 | None => mul min_v (Int max_level_v)
                 end;
  inr {| min_value := min_v; max_value := max_value_v; scale := scale_v;
         max_level := Z.max max_level_v 1 |}.

(** A maximum that counts as not given: [None], [0], [0.0] or [-0.0]. *)
Definition falsy (max_v : option number) : Prop :=
  max_v = None ∨ max_v = Some (Int 0) ∨ ∃ s, max_v = Some (Float (S754_zero s)).

(** [Curve.value_at(self, level)]: the ratio [f], then the difference of the
    endpoints, then [math.pow] on the converted [f] and [scale], then the
    product and the sum. *)
Definition value_at `{Libm} (c : Curve) (level : Z) : error + number :=
  f ← (if max_level c =? 1 then inr (Int 1)
       else q ← int_truediv (level - 1) (max_level c - 1); inr (Float q));
  d ← sub (max_value c) (min_value c);
  x ← to_float f;
  y ← to_float (scale c);
  p ← pow x y;
  t ← mul d (Float p);
  add (min_value c) t.

(** *** [unflatten] *)

(** A slot of a raw card array is a JSON value. *)
Abbreviation token := Py.value.

(** What a call leaves behind: the (mutated) array, and the exception when
    one was raised. *)
Inductive outcome :=
| Done (raw : list token)
| Raised (e : exn) (raw : list token).

(** The array as the call leaves it. *)
Definition array_of (o : outcome) : list token :=
  match o with
  | Done raw => raw
  | Raised _ raw => raw
  end.

Definition len (raw : list token) : Z := Z.of_nat (length raw).

(** The position [raw[i]] denotes: negative indices count from the end. *)
Definition norm_index (n i : Z) : option nat :=
  if (0 <=? i) && (i <? n) then Some (Z.to_nat i)
  else if (- n <=? i) && (i <? 0) then Some (Z.to_nat (i + n))
  else None.

(** [raw[i]]; [None] stands for [IndexError]. *)
Definition getitem (raw : list token) (i : Z) : option token :=
  match norm_index (len raw) i with
  | Some k => raw !! k
  | None => None
  end.

(** [raw[i] = v]; [None] stands for [IndexError]. *)
Definition setitem (raw : list token) (i : Z) (v : token) : option (list token) :=
  match norm_index (len raw) i with
  | Some k => Some (<[k := v]> raw)
  | None => None
  end.

(** A bound of [slice(start, stop)] clamped as [slice.indices] does. *)
Definition clamp (n i : Z) : nat :=
  Z.to_nat (if i <? 0 then Z.max (i + n) 0 else Z.min i n).

(** [list(raw[start:stop])]. *)
Definition getslice (raw : list token) (start stop : Z) : list token :=
  let s := clamp (len raw) start in
  let e := clamp (len raw) stop in
  take (e - s) (drop s raw).

(** [del raw[start:stop]]. *)
Definition delslice (raw : list token) (start stop : Z) : list token :=
  let s := clamp (len raw) start in
  let e := clamp (len raw) stop in
  take s raw ++ drop (max s e) raw.

(** The integer [width * item_count] that the slice bound is built from.
    An [int] or [bool] count multiplies as a number. Every other count ends
    in [TypeError] before the array is touched: [None] cannot be multiplied,
    a repeated [str] or [list] cannot be added to [data_start], and a
    [float] bound is refused by the slicing. *)
Definition times (width : Z) (item_count : token) : option Z :=
  match item_count with
  | PInt z => Some (width * z)
  | PBool b => Some (width * (if b then 1 else 0))
  | _ => None
  end.

(** [unflatten(raw, idx, width, replace=False)]. *)
Definition unflatten (raw : list token) (idx width : Z) (replace : bool) : outcome :=
  match getitem raw idx with
  | None => Raised IndexError raw
  | Some item_count =>
    if eq_zero item_count && replace then
      match setitem raw idx (PList []) with
      | Some raw' => Done raw'
      | None => Raised IndexError raw
      end
    else
      let data_start := idx + 1 in
      match times width item_count with
      | None => Raised TypeError raw
      | Some flattened_item_count =>
        let stop := data_start + flattened_item_count in
        let data := getslice raw data_start stop in
        let raw1 := delslice raw data_start stop in
        if replace then
          match setitem raw1 idx (PList data) with
          | Some raw2 => Done raw2
          | None => Raised IndexError raw1
          end
        else Done raw1
      end
  end.

End Card.

(** ** [data/bonus.py] *)

Module Bonus.
Import Py.

(** What [bonus.py] imports from [common/pad_util.py] and
    [common/shared_types.py]; those modules are taken as given. Each
    function either returns or raises. *)
Class PadUtil := {
  gh_to_timestamp : string -> string -> exn + Z;
  strip_colors : string -> string;
  ghmult_plain : value -> exn + value;
  ghchance_plain : value -> exn + value;
  DungeonId : value -> exn + value;
  DungeonFloorId : value -> exn + value
}.

(** The functions that occur as ['mod_fn'] in [Bonus.types]. *)
Inductive modifier := Ghmult_plain | Ghchance_plain | Int.

(** An entry of [Bonus.types]: ['name'], and ['mod_fn'] when present. *)
Record bonus_info := {
  name : string;
  mod_fn : option modifier
}.

Definition plain (n : string) : bonus_info := {| name := n; mod_fn := None |}.
Definition modified (n : string) (f : modifier) : bonus_info :=
  {| name := n; mod_fn := Some f |}.

(** [Bonus.types]. *)
Definition types : gmap Z bonus_info :=
  list_to_map [
    (1, modified "Exp Boost" Ghmult_plain);
    (2, modified "Coin Boost" Ghmult_plain);
    (3, modified "Drop Boost" Ghmult_plain);
    (5, modified "Stamina Reduction" Ghmult_plain);
    (6, plain "dungeon");
    (8, plain "pem_event");
    (9, plain "rem_event");
    (10, modified "pem_cost" Int);
    (11, modified "Feed Exp Bonus Chance" Ghmult_plain);
    (12, modified "+Egg Drop Rate 1" Ghchance_plain);
    (14, plain "gf_?");
    (16, modified "+Egg Drop Rate 2" Ghmult_plain);
    (17, modified "Feed Skill-Up Chance" Ghmult_plain);
    (20, plain "tournament_active");
    (21, plain "tournament_closed");
    (22, plain "score_announcement");
    (23, plain "meta?");
    (24, plain "gift_dungeon_with_reward");
    (25, plain "dungeon_special_event");
    (29, plain "multiplayer_announcement");
    (31, plain "multiplayer_dungeon_text");
    (32, plain "tournament_text");
    (36, plain "daily_dragons");
    (37, plain "monthly_quest_dungeon");
    (39, plain "dungeon_floor_text");
    (43, plain "monthly_quest_info")
  ].

(** [set(Bonus.keys)], with [Bonus.keys = 'sebiadmf']. *)
Definition keys : gset string :=
  list_to_set ["s"; "e"; "b"; "i"; "a"; "d"; "m"; "f"].

(** How [Bonus.__init__] can end without an object:
    [ValueError('Unexpected keys: ' + str(ks))], or an exception raised by a
    lookup, a conversion or an imported function. *)
Inductive error :=
| UnexpectedKeys (ks : gset string)
| Raised (e : exn).

Definition bind {A B : Type} (m : error + A) (k : A -> error + B) : error + B :=
  match m with
  | inr a => k a
  | inl e => inl e
  end.

#[export] Instance error_bind : MBind (sum error) := λ A B k m, bind m k.

Definition lift {A : Type} (m : exn + A) : error + A :=
  match m with
  | inr a => inr a
  | inl e => inl (Raised e)
  end.

(** [raw[k]]. *)
Definition getitem (raw : gmap string value) (k : string) : error + value :=
  match raw !! k with
  | Some v => inr v
  | None => inl (Raised (KeyError k))
  end.

(** The attributes assigned before the category is looked up. *)
Record Fields := {
  start_time_str : string;
  start_timestamp : Z;
  end_time_str : string;
  end_timestamp : Z;
  dungeon_id : value;
  dungeon_floor_id : value;
  egg_machine_id : option Z;
  message : option string;
  clean_message : option string
}.

Record Bonus := {
  fields : Fields;
  bonus_value : value;
  bonus_name : string;
  bonus_id : Z
}.

Section Decoder.
Context `{Builtins} `{PadUtil}.

(** The body of [Bonus.__init__] from the start time to the message. *)
Definition Bonus_fields (raw : gmap string value) (server : string)
    : error + Fields :=
  s ← getitem raw "s";
  let start_str := str s in
  start_ts ← lift (gh_to_timestamp start_str server);
  e ← getitem raw "e";
  let end_str := str e in
  end_ts ← lift (gh_to_timestamp end_str server);
  d ← match raw !! "d" with
       | Some v => lift (DungeonId v)
       | None => inr PNone
       end;
  f ← match raw !! "f" with
       | Some v => lift (DungeonFloorId v)
       | None => inr PNone
       end;
  i ← match raw !! "i" with
       | Some v => z ← lift (int v); inr (Some z)
       | None => inr None
       end;
  let m := str <$> raw !! "m" in
  inr {| start_time_str := start_str; start_timestamp := start_ts;
         end_time_str := end_str; end_timestamp := end_ts;
         dungeon_id := d; dungeon_floor_id := f; egg_machine_id := i;
         message := m; clean_message := strip_colors <$> m |}.

(** [bonus_info['mod_fn'](v)]. *)
Definition apply_modifier (f : modifier) (v : value) : exn + value :=
  match f with
  | Ghmult_plain => ghmult_plain v
  | Ghchance_plain => ghchance_plain v
  | Int => match int v with inr z => inr (PInt z) | inl e => inl e end
  end.

(** [{'name': 'unknown_id:{}'.format(bonus_id)}]. *)
Definition unknown_info (bonus_id : Z) : bonus_info :=
  plain ("unknown_id:" +:+ pretty bonus_id).

(** [Bonus.__init__(self, raw, server)]. *)
Definition Bonus_init (raw : gmap string value) (server : string)
    : error + Bonus :=
  if decide (dom raw ⊆ keys) then
    fs ← Bonus_fields raw server;
    b ← getitem raw "b";
    id ← lift (int b);
    let info := default (unknown_info id) (types !! id) in
    v ← match raw !! "a" with
         | Some a =>
           match mod_fn info with
           | Some f => lift (apply_modifier f a)
           | None => inr a
           end
         | None => inr PNone
         end;
    inr {| fields := fs; bonus_value := v; bonus_name := name info;
           bonus_id := id |}
  else inl (UnexpectedKeys (dom raw ∖ keys)).

End Decoder.

End Bonus.

(** ** [storage/db_util.py] *)

Module DbUtil.
Import Py.

(** A row as the [DictCursor] returns it: the selected columns with their
    values, in select order. *)
Abbreviation row := (list (string * value)).

(** What a cursor holds once [cursor.execute(sql)] has returned:
    the number [execute] returned, the rows of [fetchall()], and
    [lastrowid]. *)
Record Cursor := {
  rowcount : Z;
  rows : list row;
  lastrowid : Z
}.

(** What a statement does to the store. *)
Inductive kind := Select | Insert | Update.

(** The database behind [self.connection], as far as the wrapper uses it.
    A [Select] leaves the store as it is, and [execute] returns for it the
    number of rows it fetched. *)
Class Connection (Conn Sql : Type) := {
  kind_of : Sql → kind;
  cursor_execute : Conn → Sql → Conn * Cursor;
  select_pure : ∀ c q, kind_of q = Select → (cursor_execute c q).1 = c;
  select_rowcount : ∀ c q, kind_of q = Select →
    rowcount (cursor_execute c q).2 = Z.of_nat (length (rows (cursor_execute c q).2))
}.

(** The interface [SqlItem] of [sql_item.py], as [insert_or_update] uses
    it. The two lookups are [Select] statements. *)
Class SqlItem (Item Sql : Type) `{Connection Conn Sql} := {
  key_value : Item → value;
  set_key_value : Item → value → Item;
  uses_alternate_key_lookup : Item → bool;
  uses_local_primary_key : Item → bool;
  needs_insert : Item → bool;
  exists_sql : Item → Sql;
  needs_update_sql : Item → Sql;
  insert_sql : Item → Sql;
  update_sql : Item → Sql;
  exists_sql_kind : ∀ i, kind_of (exists_sql i) = Select;
  needs_update_sql_kind : ∀ i, kind_of (needs_update_sql i) = Select;
  insert_sql_kind : ∀ i, kind_of (insert_sql i) = Insert;
  update_sql_kind : ∀ i, kind_of (update_sql i) = Update
}.

Section Wrapper.
Context {Conn Sql : Type} `{Connection Conn Sql}.

(** The [ValueError]s the wrapper raises, and exceptions of the built-ins. *)
Inductive error :=
| GotZeroResults (sql : Sql)
| GotTooManyResults (num_rows : Z) (sql : Sql)
| TooManyColumns (sql : Sql)
| TooManyResultsForInsert (num_rows : Z) (sql : Sql)
| Raised (e : exn).

Inductive result (A : Type) :=
| Return (a : A)
| Raise (e : error).
Arguments Return {A} a.
Arguments Raise {A} e.

(** The state a call works on: the wrapper's [dry_run] flag and connection,
    the statements passed to [cursor.execute] so far (what [execute] logs),
    and the generator behind [random]: a tape of integers and the number of
    draws taken from it. *)
Record World := {
  dry_run : bool;
  connection : Conn;
  executed : list Sql;
  tape : nat → Z;
  draws : nat
}.

(** A call runs on a world and leaves one behind, whether it returns or
    raises. *)
Definition M (A : Type) : Type := World → result A * World.

Definition ret {A : Type} (a : A) : M A := λ w, (Return a, w).

Definition raise {A : Type} (e : error) : M A := λ w, (Raise e, w).

Definition bind {A B : Type} (m : M A) (k : A → M B) : M B :=
  λ w, match m w with
       | (Return a, w') => k a w'
       | (Raise e, w') => (Raise e, w')
       end.

#[export] Instance M_bind : MBind M := λ A B k m, bind m k.

(** [random.randrange(start, stop)]: the next integer of the tape, reduced
    into [start <= n < stop]. *)
Definition randrange (start stop : Z) : M Z :=
  λ w, (Return (start + tape w (draws w) `mod` (stop - start)),
        {| dry_run := dry_run w; connection := connection w;
           executed := executed w; tape := tape w; draws := S (draws w) |}).

(** [DbWrapper.execute(self, cursor, sql)]. *)
Definition execute (sql : Sql) : M Cursor :=
  λ w, let r := cursor_execute (connection w) sql in
       (Return r.2,
        {| dry_run := dry_run w; connection := r.1;
           executed := executed w ++ [sql]; tape := tape w;
           draws := draws w |}).

Definition is_dry_run : M bool := λ w, (Return (dry_run w), w).

(** [list(row.values())]. *)
Definition values (r : row) : list value := r.*2.

(** [DbWrapper.get_single_value(self, sql, op=str, fail_on_empty=True)]. *)
Definition get_single_value (sql : Sql) (op : value → exn + value)
    (fail_on_empty : bool) : M value :=
  cursor ← execute sql;
  let data := rows cursor in
  let num_rows := Z.of_nat (length data) in
  dry ← is_dry_run;
  if num_rows =? 0 then
    if dry || negb fail_on_empty then ret PNone
    else raise (GotZeroResults sql)
  else if 1 <? num_rows then raise (GotTooManyResults num_rows sql)
  else
    match data with
    | [] => raise (Raised IndexError)
    | r :: _ =>
      if 1 <? Z.of_nat (length (values r)) then raise (TooManyColumns sql)
      else
        match values r with
        | [] => raise (Raised IndexError)
        | v :: _ =>
          match op v with
          | inr x => ret x
          | inl e => raise (Raised e)
          end
        end
    end.

(** [DbWrapper.check_existing(self, sql)]. *)
Definition check_existing (sql : Sql) : M bool :=
  cursor ← execute sql;
  let num_rows := rowcount cursor in
  if 1 <? num_rows then raise (GotTooManyResults num_rows sql)
  else ret (negb (num_rows =? 0)).

(** [DbWrapper.check_existing_value(self, sql)]: [None], the value of a
    one-column row, or the list of the values of a wider row. *)
Definition check_existing_value (sql : Sql) : M value :=
  cursor ← execute sql;
  let num_rows := rowcount cursor in
  if 1 <? num_rows then raise (GotTooManyResults num_rows sql)
  else if num_rows =? 0 then ret PNone
  else
    match rows cursor with
    | [] => raise (Raised AttributeError)
    | r :: _ =>
      let row_values := values r in
      if 1 <? Z.of_nat (length row_values) then ret (PList row_values)
      else
        match row_values with
        | [] => raise (Raised IndexError)
        | v :: _ => ret v
        end
    end.

(** [DbWrapper.insert_item(self, sql)]. *)
Definition insert_item (sql : Sql) : M Z :=
  dry ← is_dry_run;
  if (dry : bool) then randrange (-99999) (-1)
  else
    cursor ← execute sql;
    let data := rows cursor in
    let num_rows := Z.of_nat (length data) in
    if 0 <? num_rows then raise (TooManyResultsForInsert num_rows sql)
    else ret (lastrowid cursor).

End Wrapper.

Arguments error : clear implicits.
Arguments result : clear implicits.
Arguments World : clear implicits.
Arguments Return {Sql A} a.
Arguments Raise {Sql A} e.

Section Observing.
Context {Conn Sql : Type} `{Connection Conn Sql}.

(** The cursor [execute] hands back in a world, and the world it leaves. *)
Definition cursor_of (w : World Conn Sql) (q : Sql) : Cursor :=
  (cursor_execute (connection w) q).2.

Definition after (w : World Conn Sql) (q : Sql) : World Conn Sql :=
  {| dry_run := dry_run w; connection := (cursor_execute (connection w) q).1;
     executed := executed w ++ [q]; tape := tape w; draws := draws w |}.

(** The world once a key was drawn from the generator. *)
Definition drawn (w : World Conn Sql) : World Conn Sql :=
  {| dry_run := dry_run w; connection := connection w;
     executed := executed w; tape := tape w; draws := S (draws w) |}.

Definition synthetic_key (w : World Conn Sql) : Z :=
  -99999 + tape w (draws w) `mod` (-1 - -99999).

(** What a call of [insert_or_update] did, read off the worlds around it:
    it left the store as it was and passed only [Select] statements to the
    cursor. *)
Definition only_read (w w' : World Conn Sql) : Prop :=
  connection w' = connection w ∧ dry_run w' = dry_run w ∧
  ∃ qs, executed w' = executed w ++ qs ∧ Forall (λ q, kind_of q = Select) qs.

(** A computation that, run in dry-run mode, only reads. *)
Definition reads_in_dry_run {A : Type} (m : M A) : Prop :=
  ∀ w0 w : World Conn Sql,
    dry_run w0 = true → only_read w0 w → only_read w0 (m w).2.

End Observing.

Section Upsert.
Context {Conn Sql Item : Type} `{SqlItem Item Sql (Conn := Conn)} `{Builtins}.

(** [op=int], on cells. *)
Definition int_op (v : value) : exn + value :=
  match int v with
  | inr z => inr (PInt z)
  | inl e => inl e
  end.

(** [DbWrapper.insert_or_update(self, item)]. The call returns the key;
    the item comes back with it because the alternate-key branch stores the
    looked-up key in the item. No branch stores a generated key in it. *)
Definition insert_or_update (item : Item) : M (value * Item) :=
  let key := key_value item in
  if uses_alternate_key_lookup item then
    key ← get_single_value (exists_sql item) int_op false;
    let item := set_key_value item key in
    if negb (truthy key) then
      k ← insert_item (insert_sql item);
      ret (PInt k, item)
    else
      unchanged ← check_existing (needs_update_sql item);
      if negb unchanged then
        _ ← insert_item (update_sql item);
        ret (key, item)
      else ret (key, item)
  else if negb (uses_local_primary_key item) then
    present ← check_existing (exists_sql item);
    if negb present then
      k ← insert_item (insert_sql item);
      ret (PInt k, item)
    else
      unchanged ← check_existing (needs_update_sql item);
      if negb unchanged then
        _ ← insert_item (update_sql item);
        ret (key, item)
      else ret (key, item)
  else
    if needs_insert item then
      k ← insert_item (insert_sql item);
      ret (PInt k, item)
    else
      unchanged ← check_existing (needs_update_sql item);
      if negb unchanged then
        _ ← insert_item (update_sql item);
        ret (key, item)
      else ret (key, item).

End Upsert.

End DbUtil.

(** ** A relational store and a record type for it *)

Module Store.
Import Py DbUtil.

(** Modelled from the spec: the relational store behind the connection
    (MySQL is not part of the sources). A stored row maps column names to
    values, a table is the list of its rows, the database maps table names
    to tables. *)
Abbreviation stored := (gmap string value).
Abbreviation db := (gmap string (list (gmap string value))).

(** Modelled from the spec: the statements [sql_item.py] (not part of the
    sources) builds for a record.
    [SelectWhere t cs cond] is [SELECT cs FROM t WHERE] every column of
    [cond] has its value; [InsertInto t kc k vals] inserts the row [vals]
    with key column [kc] set to [k], or to a generated key when [k] is
    [None] or 0;
    [UpdateWhere t vals cond] sets the columns of [vals] in every row that
    satisfies [cond]. *)
Inductive sql :=
| SelectWhere (table : string) (cols : list string) (cond : gmap string value)
| InsertInto (table key_col : string) (key : value) (vals : gmap string value)
| UpdateWhere (table : string) (vals cond : gmap string value).

(** The rows of a table; a table the database does not know is empty. *)
Definition table_rows (d : db) (t : string) : list stored := default [] (d !! t).

(** The integer keys present in a table. *)
Definition int_keys (key_col : string) (rs : list stored) : list Z :=
  omap (λ r : stored, match r !! key_col with
                      | Some (PInt z) => Some z
                      | _ => None
                      end) rs.

(** Modelled from the spec: the generated key of an insert (the store is not
    part of the sources) is a positive integer above every integer key of
    the table. *)
Definition next_key (key_col : string) (rs : list stored) : Z :=
  1 + foldr Z.max 0 (int_keys key_col rs).

(** Modelled from the spec: what the store (not part of the sources) does
    with a statement, and what the cursor holds afterwards. *)
Definition run (d : db) (q : sql) : db * Cursor :=
  match q with
  | SelectWhere t cols cond =>
    let found := filter (λ r : stored, cond ⊆ r) (table_rows d t) in
    (d, {| rowcount := Z.of_nat (length found);
           rows := (λ r : stored,
                      (λ c, (c, default PNone (r !! c))) <$> cols) <$> found;
           lastrowid := 0 |})
  | InsertInto t key_col key vals =>
    let rs := table_rows d t in
    if truthy key then
      (<[t := rs ++ [<[key_col := key]> vals]]> d,
       {| rowcount := 1; rows := []; lastrowid := 0 |})
    else
      let k := next_key key_col rs in
      (<[t := rs ++ [<[key_col := PInt k]> vals]]> d,
       {| rowcount := 1; rows := []; lastrowid := k |})
  | UpdateWhere t vals cond =>
    let rs := table_rows d t in
    (<[t := (λ r : stored, if decide (cond ⊆ r) then vals ∪ r else r) <$> rs]> d,
     {| rowcount := Z.of_nat (length (filter (λ r : stored, cond ⊆ r) rs));
        rows := []; lastrowid := 0 |})
  end.

(** The kind of a statement of the store. *)
Definition sql_kind (q : sql) : kind :=
  match q with
  | SelectWhere _ _ _ => Select
  | InsertInto _ _ _ _ => Insert
  | UpdateWhere _ _ _ => Update
  end.

(** Modelled from the spec: the store (not part of the sources) as a
    connection; its [Select] statements change nothing and count the rows
    they fetch. *)
#[export] Instance store_connection : Connection db sql.
Proof.
  refine {| kind_of := sql_kind; cursor_execute := run |}.
  - intros d q Hq. destruct q; try discriminate. reflexivity.
  - intros d q Hq. destruct q; try discriminate. cbn. by rewrite length_fmap.
Defined.

(** Modelled from the spec: a persistable record (the [SqlItem] subclasses
    are not part of the sources): its table, its primary-key column and
    value, its tracked columns, the condition of its alternate-key lookup,
    and its identity strategy as the two flags [insert_or_update] reads. *)
Record item := {
  TABLE : string;
  KEY_COL : string;
  key : value;
  tracked : gmap string value;
  alternate_key : gmap string value;
  alternate_key_lookup : bool;
  local_primary_key : bool
}.

(** Modelled from the spec: [set_key_value] of a record (the [SqlItem]
    subclasses are not part of the sources) sets its primary key. *)
Definition with_key (i : item) (k : value) : item :=
  {| TABLE := TABLE i; KEY_COL := KEY_COL i; key := k; tracked := tracked i;
     alternate_key := alternate_key i;
     alternate_key_lookup := alternate_key_lookup i;
     local_primary_key := local_primary_key i |}.

(** Modelled from the spec: a record with a local primary key
    ([SqlItem.needs_insert] is not part of the sources) needs insertion when
    its key is unset: [None] or 0. *)
Definition item_needs_insert (i : item) : bool := negb (truthy (key i)).

(** Modelled from the spec: the existence query of a record ([sql_item.py]
    is not part of the sources) selects by the alternate key, or else by the
    primary key. *)
Definition item_exists_sql (i : item) : sql :=
  SelectWhere (TABLE i) [KEY_COL i]
    (if alternate_key_lookup i then alternate_key i
     else {[ KEY_COL i := key i ]}).

(** Modelled from the spec: the update-need query of a record
    ([sql_item.py] is not part of the sources) selects the row of the
    resolved identity with every tracked column at its intended value; no
    such row means an update is needed. *)
Definition item_needs_update_sql (i : item) : sql :=
  SelectWhere (TABLE i) [KEY_COL i] (<[KEY_COL i := key i]> (tracked i)).

(** Modelled from the spec: the insert statement of a record ([sql_item.py]
    is not part of the sources) carries its key and its tracked columns. *)
Definition item_insert_sql (i : item) : sql :=
  InsertInto (TABLE i) (KEY_COL i) (key i) (tracked i).

(** Modelled from the spec: the update statement of a record ([sql_item.py]
    is not part of the sources) sets the tracked columns of the row with
    its key. *)
Definition item_update_sql (i : item) : sql :=
  UpdateWhere (TABLE i) (tracked i) {[ KEY_COL i := key i ]}.

#[export] Instance store_item : SqlItem item sql := {|
  key_value := key;
  set_key_value := with_key;
  uses_alternate_key_lookup := alternate_key_lookup;
  uses_local_primary_key := local_primary_key;
  needs_insert := item_needs_insert;
  exists_sql := item_exists_sql;
  needs_update_sql := item_needs_update_sql;
  insert_sql := item_insert_sql;
  update_sql := item_update_sql;
  exists_sql_kind := λ _, eq_refl;
  needs_update_sql_kind := λ _, eq_refl;
  insert_sql_kind := λ _, eq_refl;
  update_sql_kind := λ _, eq_refl
|}.

(** The built-ins as far as the store needs them: keys are integers. *)
#[export] Instance store_builtins : Builtins :=
  {| int_of_str := λ _, None; repr := λ _, "" |}.

(** A world to start from: the generator's tape repeats one draw. *)
Definition world (dry : bool) (d : db) (draw : Z) : World db sql :=
  {| dry_run := dry; connection := d; executed := []; tape := λ _, draw;
     draws := 0 |}.

End Store.

(** ** [data/card.py]: parts of [BookCard.__init__] *)

Module BookCard.
Import Py Card.

(** The first two statements of [BookCard.__init__]:
    [unflatten(raw, 57, 3, replace=True)] and then
    [unflatten(raw, 58, 1, replace=True)] on the same array. *)
Definition BookCard_unflatten (raw : list token) : outcome :=
  match unflatten raw 57 3 true with
  | Done raw1 => unflatten raw1 58 1 true
  | Raised e raw1 => Raised e raw1
  end.

(** [EnemySkillRef]. *)
Record EnemySkillRef := {
  enemy_skill_id : Z;
  enemy_ai : value;
  enemy_rnd : value
}.

(** [range(start, stop, step)] for a positive [step]: its length is
    [(stop - start + step - 1) // step], or 0 when that is negative. *)
Definition range (start stop step : Z) : list Z :=
  (λ i : nat, start + step * Z.of_nat i)
    <$> seq 0 (Z.to_nat ((stop - start + step - 1) `div` step)).

(** [l[i]], raising [IndexError]. *)
Definition item (l : list value) (i : Z) : exn + value :=
  match getitem l i with
  | Some v => inr v
  | None => inl IndexError
  end.

(** [[f(x) for x in xs]]: the first exception ends the comprehension. *)
Fixpoint comprehension {A B : Type} (f : A → exn + B) (xs : list A)
    : exn + list B :=
  match xs with
  | [] => inr []
  | x :: xs' =>
    match f x with
    | inl e => inl e
    | inr y =>
      match comprehension f xs' with
      | inl e => inl e
      | inr ys => inr (y :: ys)
      end
    end
  end.

Section Refs.
Context `{Builtins}.

(** [EnemySkillRef(int(l[i]), l[i + 1], l[i + 2])]. *)
Definition enemy_skill_ref_at (l : list value) (i : Z) : exn + EnemySkillRef :=
  match item l i with
  | inl e => inl e
  | inr a =>
    match int a with
    | inl e => inl e
    | inr id =>
      match item l (i + 1) with
      | inl e => inl e
      | inr b =>
        match item l (i + 2) with
        | inl e => inl e
        | inr c => inr {| enemy_skill_id := id; enemy_ai := b; enemy_rnd := c |}
        end
      end
    end
  end.

(** [self.enemy_skill_refs] of [BookCard.__init__], with [l] the list that
    [unflatten] left in [raw[57]]:
    [[EnemySkillRef(int(l[i]), l[i + 1], l[i + 2])
      for i in range(0, len(l) - 2, 3)]]. *)
Definition enemy_skill_refs (l : list value) : exn + list EnemySkillRef :=
  comprehension (enemy_skill_ref_at l) (range 0 (len l - 2) 3).

End Refs.

(** The three tokens a reference is read from, and the flat list of a list
    of references. *)
Definition ref_tokens (r : EnemySkillRef) : list value :=
  [PInt (enemy_skill_id r); enemy_ai r; enemy_rnd r].

Definition flat_refs (rs : list EnemySkillRef) : list value :=
  concat (ref_tokens <$> rs).

End BookCard.

(** ** [data/bonus.py]: [Bonus.is_open] *)

Module BonusClock.
Import Py Bonus.

(** [Bonus.is_open(self)], with [current_time] the integer
    [int(time.time())] read from the clock. *)
Definition is_open (b : Bonus) (current_time : Z) : bool :=
  (start_timestamp (fields b) <? current_time)
  && (current_time <? end_timestamp (fields b)).

(** A stand-in for [pad_util] whose timestamps differ: the string
    ['180801000000'] is second 100, every other string second 200. *)
Definition sample_timestamps : PadUtil :=
  {| gh_to_timestamp := λ s _,
       inr (if String.eqb s "180801000000" then 100 else 200);
     strip_colors := λ m, m;
     ghmult_plain := λ v, inr v;
     ghchance_plain := λ v, inr v;
     DungeonId := λ v, inr v;
     DungeonFloorId := λ v, inr v |}.

End BonusClock.

(** ** [storage/db_util.py]: the row readers *)

Module DbRows.
Import Py DbUtil.

Section Wrapper.
Context {Conn Sql : Type} `{Connection Conn Sql}.

(** [DbWrapper.fetch_data(self, sql)]. *)
Definition fetch_data (sql : Sql) : M (list row) :=
  cursor ← execute sql;
  ret (rows cursor).

(** [DbWrapper.get_single_or_no_row(self, sql)]. *)
Definition get_single_or_no_row (sql : Sql) : M (option row) :=
  cursor ← execute sql;
  let data := rows cursor in
  let num_rows := Z.of_nat (length data) in
  if 1 <? num_rows then raise (GotTooManyResults num_rows sql)
  else if num_rows =? 0 then ret None
  else
    match data with
    | [] => raise (Raised IndexError)
    | r :: _ => ret (Some r)
    end.

End Wrapper.

End DbRows.

(** ** [data/bonus.py]: the server of [load_bonus_data] *)

Module BonusFile.
Import Py.

(** [needle in haystack], on strings. *)
Fixpoint contains (needle haystack : string) : bool :=
  String.prefix needle haystack ||
  match haystack with
  | EmptyString => false
  | String _ rest => contains needle rest
  end.

(** The server [load_bonus_data] decodes the objects for: the [server]
    argument, or, when it is [None] or empty, what the path of the file
    tells; an exception when the path tells nothing. *)
Definition load_bonus_data_server (json_file : string) (server : option string)
    : exn + string :=
  if negb (truthy (from_option PStr PNone server)) then
    if contains "/na/" json_file || contains "\na\" json_file then inr "na"
    else if contains "/jp/" json_file || contains "\jp\" json_file then inr "jp"
    else inl Exception
  else inr (default "" server).

End BonusFile.

(** ** [data/card.py]: the flags of [BookCard.__init__] *)

Module CardFlags.
Import Py.

(** [bool(self.random_flags & mask)]; [&] is defined on integers and
    booleans. *)
Definition flag (random_flags : value) (mask : Z) : exn + bool :=
  match random_flags with
  | PInt z => inr (negb (Z.land z mask =? 0))
  | PBool b => inr (negb (Z.land (Z.b2z b) mask =? 0))
  | _ => inl TypeError
  end.

(** [self.inheritable] and [self.is_collab]. *)
Definition inheritable (random_flags : value) : exn + bool := flag random_flags 1.
Definition is_collab (random_flags : value) : exn + bool := flag random_flags 4.

End CardFlags.

(** ** Sample data *)

Module Samples.
Import Py Bonus DbUtil Store.

(** Stand-ins for the built-ins and for [pad_util], to run the decoder on
    concrete objects. *)
Definition sample_builtins : Builtins :=
  {| int_of_str := λ _, None; repr := λ _, "" |}.

Definition sample_pad_util : PadUtil :=
  {| gh_to_timestamp := λ _ _, inr 0;
     strip_colors := λ m, m;
     ghmult_plain := λ v, inr v;
     ghchance_plain := λ v, inr v;
     DungeonId := λ v, inr v;
     DungeonFloorId := λ v, inr v |}.

(** Records and stores to run the wrapper on. *)
Definition monster : item :=
  {| TABLE := "monster_list"; KEY_COL := "monster_no"; key := PNone;
     tracked := {[ "name" := PStr "Tyrra" ]}; alternate_key := ∅;
     alternate_key_lookup := false; local_primary_key := true |}.

Definition tyrra_row : stored :=
  {[ "monster_no" := PInt 1; "name" := PStr "Tyrra" ]}.

(** A record identified by a foreign key, and a table that holds its row
    twice. *)
Definition evolution : item :=
  {| TABLE := "monster_list"; KEY_COL := "monster_no"; key := PInt 1;
     tracked := {[ "name" := PStr "Tyrra" ]}; alternate_key := ∅;
     alternate_key_lookup := false; local_primary_key := false |}.

Definition duplicated : db := {[ "monster_list" := [tyrra_row; tyrra_row] ]}.

Definition single : db := {[ "monster_list" := [tyrra_row] ]}.

Definition two_columns : sql :=
  SelectWhere "monster_list" ["monster_no"; "name"] ∅.

End Samples.

Module LookupSamples.
Import Py Store.

(** A record found by its name: the alternate-key lookup selects the row
    with that name. *)
Definition by_name : item :=
  {| TABLE := "monster_list"; KEY_COL := "monster_no"; key := PNone;
     tracked := {[ "name" := PStr "Tyrra" ]};
     alternate_key := {[ "name" := PStr "Tyrra" ]};
     alternate_key_lookup := true; local_primary_key := false |}.

End LookupSamples.

Module CurveSamples.
Import Num Card.

(** A stand-in for the C library, to run curves on samples: [pow] returns
    what the laws of [Libm] fix and raises [ValueError] elsewhere. *)
Definition is_one (x : spec_float) : bool :=
  match x with
  | S754_finite false m e => (m =? 4503599627370496)%positive && (e =? -52)
  | _ => false
  end.

Definition sample_pow (x y : spec_float) : error + spec_float :=
  if is_one x then inr one
  else match x with
       | S754_zero false => if SFltb zero y then inr zero else inl ValueError
       | _ => inl ValueError
       end.

Definition sample_libm : Libm.
Proof.
  refine {| pow := sample_pow |}.
  - intros y. reflexivity.
  - intros y Hy. unfold sample_pow. cbn. by rewrite Hy.
  - intros x y e. unfold sample_pow. destruct (is_one x); [discriminate|].
    destruct x as [[]| | |]; try (intros [= <-]; by left).
    destruct (SFltb zero y); [discriminate|]. intros [= <-]. by left.
Defined.

(** The floats [0.2], [0.9] and [1.5]. *)
Definition two_tenths : spec_float := S754_finite false 7205759403792794 (-55).
Definition nine_tenths : spec_float := S754_finite false 8106479329266893 (-53).
Definition three_halves : spec_float := S754_finite false 6755399441055744 (-52).

(** [Curve(10, 20, 1.0, 1)] and [Curve(0.2, 0.9, 1.5, 10)]. *)
Definition single_level : Curve :=
  {| min_value := Int 10; max_value := Int 20; scale := Float one;
     max_level := 1 |}.



Definition huge_scale : Curve :=
  {| min_value := Int 10; max_value := Int 20; scale := Int (2 ^ 1024);
     max_level := 10 |}.

(** [20.0], and the float just below [0.9]. *)
Definition twenty : spec_float := S754_finite false 5629499534213120 (-48).

End CurveSamples.

Module NumProps.
Import Num.

(** The bits of a positive number, against [Z.log2]. *)
Lemma digits_log2 (p : positive) : Zpos (digits2_pos p) = Z.log2 (Zpos p) + 1.
Proof.
  assert (∀ q, digits2_pos q = Pos.size q) as Hs
    by (induction q; cbn; congruence).
  rewrite Hs. destruct p; cbn; lia.
Qed.

Lemma iter_pos_nat {A : Type} (f : A → A) (p : positive) (x : A) :
  SpecFloat.iter_pos f p x = Nat.iter (Pos.to_nat p) f x.
Proof.
  revert x. induction p as [p IH|p IH|]; intros x; cbn [SpecFloat.iter_pos].
  - rewrite !IH, Pos2Nat.inj_xI. cbn [Nat.iter Nat.mul].
    rewrite Nat.add_0_r, <- Nat.iter_add. rewrite <- Nat.iter_succ_r. reflexivity.
  - rewrite !IH, Pos2Nat.inj_xO. cbn [Nat.mul].
    rewrite Nat.add_0_r, <- Nat.iter_add. reflexivity.
  - reflexivity.
Qed.

Lemma shl_Z (z : positive) (n : nat) : Zpos (shl z n) = Zpos z * 2 ^ Z.of_nat n.
Proof.
  induction n as [|n IH]; [cbn; lia|].
  change (shl z (S n)) with (xO (shl z n)).
  rewrite Pos2Z.inj_xO, IH, Nat2Z.inj_succ, Z.pow_succ_r by lia. lia.
Qed.

Lemma Pos_iter_shl (z d : positive) : Pos.iter xO z d = shl z (Pos.to_nat d).
Proof.
  induction d as [|d IH] using Pos.peano_ind.
  - reflexivity.
  - rewrite Pos.iter_succ, IH, Pos2Nat.inj_succ. reflexivity.
Qed.

Lemma digits_shl (z : positive) (n : nat) :
  Zpos (digits2_pos (shl z n)) = Zpos (digits2_pos z) + Z.of_nat n.
Proof.
  rewrite !digits_log2, shl_Z, Z.log2_mul_pow2 by lia. lia.
Qed.

(** Shifting right what was shifted left loses nothing: the round and
    sticky bits stay clear. *)
Lemma shr_exact (z : positive) (n : nat) :
  Nat.iter n shr_1 {| shr_m := Zpos (shl z n); shr_r := false; shr_s := false |}
  = {| shr_m := Zpos z; shr_r := false; shr_s := false |}.
Proof.
  induction n as [|n IH]; [reflexivity|].
  rewrite Nat.iter_succ_r. exact IH.
Qed.

Lemma shl_add (z : positive) (n m : nat) : shl (shl z n) m = shl z (n + m).
Proof. unfold shl. rewrite Nat.add_comm. symmetry. apply Nat.iter_add. Qed.

Lemma bits_pos (z : positive) : 1 ≤ bits z.
Proof. unfold bits. lia. Qed.

(** Rounding is exact on an integer of at most 53 bits, however far it is
    shifted: the result is its normal form. *)
Lemma round_aux_exact (s : bool) (z : positive) (n : nat) :
  bits z ≤ 53 → 53 - bits z ≤ Z.of_nat n →
  binary_round_aux 53 1024 s (Zpos (shl z n)) (- Z.of_nat n) loc_Exact = normal s z.
Proof.
  intros Hd Hn. pose proof (bits_pos z) as Hp.
  unfold normal. remember (Z.to_nat (53 - bits z)) as k eqn:Hk.
  assert (∃ j : nat, n = (k + j)%nat) as [j ->] by (exists (n - k)%nat; lia).
  unfold binary_round_aux, shr_fexp, shr_record_of_loc.
  cbn [Zdigits2]. rewrite digits_shl. fold (bits z).
  unfold fexp, SpecFloat.emin.
  replace (Z.max (bits z + Z.of_nat (k + j) + - Z.of_nat (k + j) - 53) (3 - 1024 - 53)
           - - Z.of_nat (k + j)) with (Z.of_nat j) by lia.
  assert (shr {| shr_m := Zpos (shl z (k + j)); shr_r := false; shr_s := false |}
            (- Z.of_nat (k + j)) (Z.of_nat j)
          = ({| shr_m := Zpos (shl z k); shr_r := false; shr_s := false |},
             bits z - 53)) as ->.
  { destruct j as [|j].
    - rewrite Nat.add_0_r. change (Z.of_nat 0) with 0. unfold shr. f_equal. lia.
    - unfold shr. change (Z.of_nat (S j)) with (Zpos (Pos.of_succ_nat j)).
      cbv iota. rewrite iter_pos_nat, SuccNat2Pos.id_succ.
      rewrite <- shl_add, shr_exact. f_equal. lia. }
  cbn [shr_m loc_of_shr_record round_nearest_even Zdigits2].
  rewrite digits_shl. fold (bits z).
  replace (Z.max (bits z + Z.of_nat k + (bits z - 53) - 53) (3 - 1024 - 53) - (bits z - 53))
    with 0 by lia.
  cbn [shr shr_m]. 
  replace (bits z - 53 <=? 1024 - 53) with true by (symmetry; apply Z.leb_le; lia).
  reflexivity.
Qed.

Lemma binary_round_exact (s : bool) (z : positive) (n : nat) :
  bits z ≤ 53 →
  binary_round 53 1024 s (shl z n) (- Z.of_nat n) = normal s z.
Proof.
  intros Hd. pose proof (bits_pos z) as Hp.
  unfold binary_round, shl_align. rewrite digits_shl. fold (bits z).
  unfold fexp, SpecFloat.emin.
  replace (Z.max (bits z + Z.of_nat n + - Z.of_nat n - 53) (3 - 1024 - 53)
           - - Z.of_nat n) with (Z.of_nat n - (53 - bits z)) by lia.
  destruct (Z.of_nat n - (53 - bits z)) as [|p|p] eqn:E.
  - apply round_aux_exact; lia.
  - apply round_aux_exact; lia.
  - rewrite Pos_iter_shl, shl_add.
    replace (Z.max (bits z + Z.of_nat n + - Z.of_nat n - 53) (3 - 1024 - 53))
      with (- Z.of_nat (n + Pos.to_nat p)) by lia.
    apply round_aux_exact; lia.
Qed.

Lemma bits_bound (p : positive) : Zpos p < 2 ^ 53 → bits p ≤ 53.
Proof.
  intros Hp. unfold bits. rewrite digits_log2.
  assert (Z.log2 (Zpos p) < 53) by (apply Z.log2_lt_pow2; lia). lia.
Qed.

(** [float(z)] never raises below [2 ** 53], and yields the normal form. *)
Lemma float_of_int_exact (z : Z) :
  Z.abs z < 2 ^ 53 → float_of_int z = inr (normal_int z).
Proof.
  intros Hz. unfold float_of_int.
  assert (binary_normalize 53 1024 z 0 false = normal_int z) as ->; [|by destruct z].
  destruct z as [|p|p]; [reflexivity|..];
    apply (binary_round_exact _ p 0), bits_bound; lia.
Qed.

(** [float(z) * 1.0] is [float(z)]. *)
Lemma SFmul_one (z : Z) :
  Z.abs z < 2 ^ 53 → SFmul 53 1024 (normal_int z) one = normal_int z.
Proof.
  intros Hz. destruct z as [|p|p]; [reflexivity|..]; cbn [normal_int].
  all: assert (bits p ≤ 53) as Hd by (apply bits_bound; lia).
  all: pose proof (bits_pos p) as Hp.
  all: unfold normal at 1, one, SFmul; cbn [xorb].
  all: change 4503599627370496%positive with (shl 1 52).
  all: assert (∀ a n m, (shl a n * shl 1 m)%positive = shl a (n + m)) as ->
         by (intros a n m; apply Pos2Z.inj; rewrite Pos2Z.inj_mul, !shl_Z,
             Nat2Z.inj_add, Z.pow_add_r by lia; lia).
  all: replace (bits p - 53 + -52) with (- Z.of_nat (Z.to_nat (53 - bits p) + 52)) by lia.
  all: apply round_aux_exact; lia.
Qed.

Lemma shl_align_fst (m : positive) (e ez : Z) :
  ez ≤ e → Zpos (fst (shl_align m e ez)) = Zpos m * 2 ^ (e - ez).
Proof.
  intros He. unfold shl_align. destruct (ez - e) as [|d|d] eqn:E; cbn [fst].
  - replace (e - ez) with 0 by lia. lia.
  - lia.
  - rewrite Pos_iter_shl, shl_Z. f_equal. f_equal. lia.
Qed.

Lemma binary_normalize_exact (z : Z) (n : nat) :
  Z.abs z < 2 ^ 53 →
  binary_normalize 53 1024 (z * 2 ^ Z.of_nat n) (- Z.of_nat n) false = normal_int z.
Proof.
  intros Hz. destruct z as [|p|p]; [reflexivity|..].
  all: assert (bits p ≤ 53) as Hd by (apply bits_bound; lia).
  - replace (Zpos p * 2 ^ Z.of_nat n) with (Zpos (shl p n)) by apply shl_Z.
    by apply binary_round_exact.
  - replace (Zneg p * 2 ^ Z.of_nat n) with (Zneg (shl p n))
      by (rewrite <- !Pos2Z.opp_pos, shl_Z; lia).
    by apply binary_round_exact.
Qed.

Lemma normal_aligned (s : bool) (p : positive) (ez : Z) :
  bits p ≤ 53 → ez ≤ bits p - 53 →
  cond_Zopp s (Zpos (fst (shl_align (shl p (Z.to_nat (53 - bits p))) (bits p - 53) ez)))
  = cond_Zopp s (Zpos p) * 2 ^ (- ez).
Proof.
  intros Hd He. pose proof (bits_pos p).
  rewrite shl_align_fst, shl_Z by lia.
  rewrite Z2Nat.id by lia.
  replace (- ez) with ((53 - bits p) + (bits p - 53 - ez)) by lia.
  rewrite Z.pow_add_r by lia. destruct s; cbn [cond_Zopp]; lia.
Qed.

(** [float(a) + float(b)] is [float(a + b)] when nothing exceeds 53 bits. *)
Lemma SFadd_exact (a b : Z) :
  Z.abs a < 2 ^ 53 → Z.abs b < 2 ^ 53 → Z.abs (a + b) < 2 ^ 53 →
  SFadd 53 1024 (normal_int a) (normal_int b) = normal_int (a + b).
Proof.
  intros Ha Hb Hab.
  assert (∀ s p, cond_Zopp s (Zpos p) = if s then Zneg p else Zpos p)
    as Hs by (by intros []).
  assert (∀ sa pa sb pb,
            bits pa ≤ 53 → bits pb ≤ 53 →
            Z.abs (cond_Zopp sa (Zpos pa) + cond_Zopp sb (Zpos pb)) < 2 ^ 53 →
            SFadd 53 1024 (normal sa pa) (normal sb pb)
            = normal_int (cond_Zopp sa (Zpos pa) + cond_Zopp sb (Zpos pb))) as Hfin.
  { intros sa pa sb pb Hda Hdb Hsum.
    pose proof (bits_pos pa). pose proof (bits_pos pb).
    unfold normal, SFadd.
    rewrite !normal_aligned by lia.
    rewrite <- Z.mul_add_distr_r.
    replace (Z.min (bits pa - 53) (bits pb - 53))
      with (- Z.of_nat (Z.to_nat (- Z.min (bits pa - 53) (bits pb - 53)))) at 2 by lia.
    replace (- Z.min (bits pa - 53) (bits pb - 53))
      with (Z.of_nat (Z.to_nat (- Z.min (bits pa - 53) (bits pb - 53)))) at 1 by lia.
    by apply binary_normalize_exact. }
  destruct a as [|pa|pa], b as [|pb|pb]; try reflexivity.
  - apply (Hfin false pa false pb); [apply bits_bound; lia..|exact Hab].
  - apply (Hfin false pa true pb); [apply bits_bound; lia..|exact Hab].
  - apply (Hfin true pa false pb); [apply bits_bound; lia..|exact Hab].
  - apply (Hfin true pa true pb); [apply bits_bound; lia..|exact Hab].
Qed.

(** [a / a] is [1.0], whatever the size of [a]. *)
Lemma int_truediv_self (a : Z) : a ≠ 0 → int_truediv a a = inr one.
Proof.
  intros Ha. unfold int_truediv, SFdiv_core_binary.
  destruct (Z.eqb_spec a 0) as [|_]; [contradiction|].
  rewrite xorb_nilpotent.
  replace (Zdigits2 (Z.abs a) + 0 - (Zdigits2 (Z.abs a) + 0)) with 0 by lia.
  change (Z.min (fexp 53 1024 0) (0 - 0)) with (-53).
  change (0 - 0 - -53) with 53. cbv iota.
  rewrite Z.shiftl_mul_pow2 by lia.
  assert (Z.div_eucl (Z.abs a * 2 ^ 53) (Z.abs a) = (2 ^ 53, 0)) as ->.
  { pose proof (Z_div_mod_full (Z.abs a * 2 ^ 53) (Z.abs a)) as Hdm.
    destruct (Z.div_eucl (Z.abs a * 2 ^ 53) (Z.abs a)) as [q r] eqn:E.
    assert (q = Z.abs a * 2 ^ 53 / Z.abs a) as -> by (unfold Z.div; by rewrite E).
    assert (r = (Z.abs a * 2 ^ 53) mod Z.abs a) as ->
      by (unfold Z.modulo; by rewrite E).
    rewrite Z.mul_comm, Z.div_mul, Z.mod_mul by lia. reflexivity. }
  assert (new_location (Z.abs a) 0 = loc_Exact) as ->
    by (unfold new_location; destruct (Z.even _); reflexivity).
  reflexivity.
Qed.

(** The normal form of [z] denotes [z]. *)
Lemma float_int_normal (z : Z) : Z.abs z < 2 ^ 53 → float_int (normal_int z) = Some z.
Proof.
  intros Hz.
  assert (∀ s p, bits p ≤ 53 →
            float_int (normal s p) = Some (cond_Zopp s (Zpos p))) as Hfin.
  { intros s p Hd. pose proof (bits_pos p). unfold normal, float_int.
    rewrite shl_Z, Z2Nat.id by lia.
    destruct (Z.leb_spec 0 (bits p - 53)) as [He|He].
    - replace (bits p - 53) with 0 by lia. replace (53 - bits p) with 0 by lia.
      do 2 f_equal. lia.
    - replace (- (bits p - 53)) with (53 - bits p) by lia.
      rewrite Z.mod_mul, Z.div_mul by lia. reflexivity. }
  destruct z as [|p|p]; [reflexivity|..]; cbn [normal_int]; rewrite Hfin;
    [reflexivity|apply bits_bound; lia|reflexivity|apply bits_bound; lia].
Qed.

End NumProps.

Module CurveProps.
Import Num Card NumProps CurveSamples.

Lemma float_of_int_raises (z : Z) (e : error) :
  float_of_int z = inl e → e = OverflowError.
Proof.
  unfold float_of_int. destruct (binary_normalize _ _ _ _ _); congruence.
Qed.

Lemma to_float_raises (x : number) (e : error) :
  to_float x = inl e → e = OverflowError.
Proof. destruct x; [apply float_of_int_raises|discriminate]. Qed.

Lemma arith_raises (on_int : Z → Z → Z)
    (on_float : spec_float → spec_float → spec_float) (x y : number)
    (e : error) :
  arith on_int on_float x y = inl e → e = OverflowError.
Proof.
  unfold arith, mbind, error_bind. intros He.
  destruct x as [a|f], y as [b|g]; try discriminate.
  all: repeat match type of He with
       | match ?m with _ => _ end = _ =>
         let E := fresh in
         destruct m eqn:E; [apply to_float_raises in E; congruence|]
       end.
  all: discriminate.
Qed.

Lemma int_truediv_raises (a b : Z) (e : error) :
  b ≠ 0 → int_truediv a b = inl e → e = OverflowError.
Proof.
  intros Hb. unfold int_truediv.
  destruct (Z.eqb_spec b 0); [contradiction|].
  destruct (a =? 0); [discriminate|].
  destruct (SFdiv_core_binary _ _ _ _ _ _) as [[m e'] l].
  destruct (binary_round_aux _ _ _ _ _ _); congruence.
Qed.


(** What is added to the minimum when the power is [1.0], on integer
    endpoints of less than 54 bits: the sum is the float of the maximum. *)
Lemma at_power_one (a b : Z) :
  Z.abs a < 2 ^ 53 → Z.abs b < 2 ^ 53 → Z.abs (b - a) < 2 ^ 53 →
  (t ← mul (Int (b - a)) (Float one); add (Int a) t)
  = inr (Float (normal_int b)).
Proof.
  intros Ha Hb Hd. unfold mul, add, arith, to_float, mbind, error_bind.
  rewrite !float_of_int_exact by assumption.
  rewrite SFmul_one, SFadd_exact by (try assumption; by replace (a + (b - a)) with b by lia).
  do 2 f_equal. f_equal. lia.
Qed.


Lemma equal_normal_int (a b : Z) :
  Z.abs b < 2 ^ 53 → (equal (Float (normal_int b)) (Int a) = true ↔ a = b).
Proof.
  intros Hb. unfold equal. rewrite float_int_normal by assumption.
  rewrite bool_decide_eq_true. split; congruence.
Qed.

Section Curves.
Context `{Libm}.

(** [value_at] with the ratio already converted for [math.pow]. *)
Lemma value_at_unfold (c : Curve) (level : Z) :
  value_at c level
  = (x ← (if max_level c =? 1 then inr one
          else int_truediv (level - 1) (max_level c - 1));
     d ← sub (max_value c) (min_value c);
     y ← to_float (scale c);
     p ← pow x y;
     t ← mul d (Float p);
     add (min_value c) t).
Proof.
  unfold value_at, mbind, error_bind.
  destruct (max_level c =? 1).
  - change (to_float (Int 1)) with (@inr error _ one). reflexivity.
  - destruct (int_truediv _ _); reflexivity.
Qed.

(** [value_at] when [math.pow] receives the ratio [1.0]. *)
Lemma value_at_ratio_one (c : Curve) (level : Z) :
  (if max_level c =? 1 then inr one
   else int_truediv (level - 1) (max_level c - 1)) = inr one →
  value_at c level
  = (d ← sub (max_value c) (min_value c);
     _ ← to_float (scale c);
     t ← mul d (Float one);
     add (min_value c) t).
Proof.
  intros Hf. rewrite value_at_unfold, Hf. unfold mbind, error_bind.
  destruct (sub _ _); [reflexivity|].
  destruct (to_float (scale c)); [reflexivity|]. by rewrite pow_one.
Qed.

(** On integer endpoints of less than 54 bits, [value_at(max_level)] is the
    float of the maximum. *)
Lemma value_at_top (c : Curve) (a b : Z) (y : spec_float) :
  min_value c = Int a → max_value c = Int b → to_float (scale c) = inr y →
  Z.abs a < 2 ^ 53 → Z.abs b < 2 ^ 53 → Z.abs (b - a) < 2 ^ 53 →
  value_at c (max_level c) = inr (Float (normal_int b)).
Proof.
  intros Hmin Hmax Hy Ha Hb Hd. rewrite value_at_ratio_one.
  2:{ destruct (Z.eqb_spec (max_level c) 1) as [|Hn]; [reflexivity|].
      apply int_truediv_self. lia. }
  rewrite Hmin, Hmax, Hy.
  change (sub (Int b) (Int a)) with (@inr error _ (Int (b - a))).
  change (?m ≫= ?k) with (k (Int (b - a))) at 1.
  change (?m ≫= ?k) with (k y) at 1. cbv beta.
  by apply at_power_one.
Qed.


(** C2 (as amended). On a curve with [max_level == 1] nothing is divided and
    [math.pow] receives the ratio 1: [value_at] is the same at every level,
    namely [min_value + (max_value - min_value) * 1.0] in the arithmetic of
    the program, once [scale] has been converted. On integer endpoints of
    less than 54 bits that is the maximum, exactly, and so the minimum only
    when the two are equal. *)
Theorem value_at_max_level_one (c : Curve) (level : Z) :
  max_level c = 1 →
  (∀ level', value_at c level' = value_at c level) ∧
  value_at c level
  = (d ← sub (max_value c) (min_value c);
     _ ← to_float (scale c);
     t ← mul d (Float one);
     add (min_value c) t) ∧
  (∀ a b y,
     min_value c = Int a → max_value c = Int b → to_float (scale c) = inr y →
     Z.abs a < 2 ^ 53 → Z.abs b < 2 ^ 53 → Z.abs (b - a) < 2 ^ 53 →
     ∃ v, value_at c level = inr v ∧ equal v (Int b) = true ∧
          (equal v (Int a) = true ↔ a = b)).
Proof.
  intros Hone.
  assert (∀ l, value_at c l
               = (d ← sub (max_value c) (min_value c);
                  _ ← to_float (scale c);
                  t ← mul d (Float one);
                  add (min_value c) t)) as Hall
    by (intros l; apply value_at_ratio_one; by rewrite Hone).
  split; [intros level'; by rewrite !Hall|]. split; [apply Hall|].
  intros a b y Hmin Hmax Hy Ha Hb Hd. rewrite Hall, Hmin, Hmax, Hy.
  change (sub (Int b) (Int a)) with (@inr error _ (Int (b - a))).
  change (?m ≫= ?k) with (k (Int (b - a))) at 1.
  change (?m ≫= ?k) with (k y) at 1. cbv beta.
  rewrite at_power_one by assumption.
  exists (Float (normal_int b)). split; [reflexivity|].
  split; by apply equal_normal_int.
Qed.


(** C10. Constructed with the maximum omitted, [None] or zero, the curve
    stores [min_value * max_level], the product of the arguments: it is the
    curve constructed with that product as its explicit maximum, so
    [value_at] runs towards the product and not towards zero. On an integer
    minimum with a product of less than 54 bits the stored maximum is the
    integer product, and [value_at(max_level)] returns it, exactly. *)
Theorem Curve_init_falsy_max (min_v scale_v : number) (max_level_v : Z)
    (max_v : option number) (product : number) :
  falsy max_v →
  mul min_v (Int max_level_v) = inr product →
  let c := {| min_value := min_v; max_value := product; scale := scale_v;
              max_level := Z.max max_level_v 1 |} in
  Curve_init min_v max_v scale_v max_level_v = inr c ∧
  Curve_init min_v (Some product) scale_v max_level_v = inr c ∧
  (∀ a y, min_v = Int a → to_float scale_v = inr y →
          1 ≤ max_level_v → Z.abs (a * max_level_v) < 2 ^ 53 →
          product = Int (a * max_level_v) ∧
          ∃ v, value_at c max_level_v = inr v ∧
               equal v (Int (a * max_level_v)) = true).
Proof.
  intros Hfalsy Hmul c.
  assert (Curve_init min_v max_v scale_v max_level_v = inr c) as Hinit.
  { unfold Curve_init.
    destruct Hfalsy as [-> | [-> | [s ->]]]; cbn [nonzero Z.eqb negb];
      by rewrite Hmul. }
  split; [exact Hinit|]. split.
  - unfold Curve_init. destruct (nonzero product); [reflexivity|].
    by rewrite Hmul.
  - intros a y -> Hy Hn Hbound.
    assert (product = Int (a * max_level_v)) as -> by (cbn in Hmul; congruence).
    split; [reflexivity|].
    exists (Float (normal_int (a * max_level_v))).
    split; [|by apply equal_normal_int].
    pose proof (value_at_top c a (a * max_level_v) y) as Htop.
    change (max_level c) with (Z.max max_level_v 1) in Htop.
    rewrite Z.max_l in Htop by lia.
    apply Htop; try done; nia.
Qed.

End Curves.

#[local] Existing Instance CurveSamples.sample_libm.

(** The sample floats are what Python reads for [2 / 10], [9 / 10], [3 / 2]
    and [float(20)]. *)
Lemma sample_floats :
  int_truediv 2 10 = inr two_tenths ∧ int_truediv 9 10 = inr nine_tenths ∧
  int_truediv 3 2 = inr three_halves ∧ float_of_int 20 = inr twenty.
Proof. repeat split; vm_compute; reflexivity. Qed.

(** [value_at_max_level_one] on [Curve(10, 20, 1.0, 1)] at level 5. *)
Lemma value_at_max_level_one_witness :
  (∀ level', value_at single_level level' = value_at single_level 5) ∧
  ∃ v, value_at single_level 5 = inr v ∧ equal v (Int 20) = true ∧
       (equal v (Int 10) = true ↔ 10 = 20).
Proof.
  destruct (value_at_max_level_one single_level 5 eq_refl) as (Hall & _ & Hint).
  split; [exact Hall|].
  apply (Hint 10 20 one); reflexivity.
Defined.

(** C2 fails as stated: [Curve(10, 20, 1.0, 1).value_at(5)] is [20.0], which
    equals the maximum 20 and not the minimum 10. *)
Lemma value_at_max_level_one_not_min :
  value_at single_level 5 = inr (Float twenty) ∧
  equal (Float twenty) (max_value single_level) = true ∧
  equal (Float twenty) (min_value single_level) = false.
Proof. repeat split; vm_compute; reflexivity. Qed.



(** [Curve_init_falsy_max] on [Curve(3, 0, 1.0, 10)]. *)
Lemma Curve_init_falsy_max_witness :
  let c := {| min_value := Int 3; max_value := Int 30; scale := Float one;
              max_level := 10 |} in
  Curve_init (Int 3) (Some (Int 0)) (Float one) 10 = inr c ∧
  Curve_init (Int 3) (Some (Int 30)) (Float one) 10 = inr c ∧
  ∃ v, value_at c 10 = inr v ∧ equal v (Int 30) = true.
Proof.
  intros c.
  destruct (Curve_init_falsy_max (Int 3) (Float one) 10 (Some (Int 0)) (Int 30))
    as (Hzero & Hgiven & Hint); [right; by left|reflexivity|].
  split; [exact Hzero|]. split; [exact Hgiven|].
  assert (1 ≤ 10) as Hlevels by done.
  assert (Z.abs (3 * 10) < 2 ^ 53) as Hbits by done.
  exact (proj2 (Hint 3 one eq_refl eq_refl Hlevels Hbits)).
Defined.

End CurveProps.

Module UnflattenProps.
Import Py Card.

Lemma norm_index_mid (pre rest : list token) :
  rest <> [] ->
  norm_index (len (pre ++ rest)) (len pre) = Some (length pre).
Proof.
  intros Hne. unfold norm_index, len. rewrite length_app.
  assert (0 < length rest)%nat by (destruct rest; [congruence | cbn; lia]).
  replace (0 <=? Z.of_nat (length pre)) with true by (symmetry; apply Z.leb_le; lia).
  replace (Z.of_nat (length pre) <? Z.of_nat (length pre + length rest))
    with true by (symmetry; apply Z.ltb_lt; lia).
  cbn. f_equal. lia.
Qed.

Lemma getitem_mid (pre : list token) (x : token) (post : list token) :
  getitem (pre ++ x :: post) (len pre) = Some x.
Proof.
  unfold getitem. rewrite norm_index_mid by discriminate.
  apply list_lookup_middle. reflexivity.
Qed.

Lemma setitem_mid (pre : list token) (x y : token) (post : list token) :
  setitem (pre ++ x :: post) (len pre) y = Some (pre ++ y :: post).
Proof.
  unfold setitem. rewrite norm_index_mid by discriminate. f_equal.
  replace (length pre) with (length pre + 0)%nat at 1 by lia.
  rewrite insert_app_r. reflexivity.
Qed.

Lemma clamp_inside (n i : Z) : 0 <= i <= n -> clamp n i = Z.to_nat i.
Proof.
  intros H. unfold clamp.
  replace (i <? 0) with false by (symmetry; apply Z.ltb_ge; lia).
  f_equal. lia.
Qed.

Lemma segment_bounds (pre seg post : list token) (c : token) :
  clamp (len (pre ++ c :: seg ++ post)) (len pre + 1) = S (length pre) ∧
  clamp (len (pre ++ c :: seg ++ post)) (len pre + 1 + len seg)
  = (S (length pre) + length seg)%nat.
Proof.
  assert (len (pre ++ c :: seg ++ post)
          = len pre + 1 + len seg + len post) as ->.
  { unfold len. rewrite length_app. cbn. rewrite length_app. lia. }
  unfold len. split; rewrite clamp_inside; lia.
Qed.

Lemma segment_split (pre seg post : list token) (c : token) :
  pre ++ c :: seg ++ post = (pre ++ [c]) ++ seg ++ post ∧
  length (pre ++ [c]) = S (length pre).
Proof.
  split.
  - rewrite <- (assoc app pre [c]). reflexivity.
  - rewrite length_app. cbn. lia.
Qed.

Lemma getslice_segment (pre seg post : list token) (c : token) :
  getslice (pre ++ c :: seg ++ post) (len pre + 1) (len pre + 1 + len seg)
  = seg.
Proof.
  unfold getslice.
  destruct (segment_bounds pre seg post c) as [-> ->].
  destruct (segment_split pre seg post c) as [-> <-].
  rewrite drop_app_length.
  replace (length (pre ++ [c]) + length seg - length (pre ++ [c]))%nat
    with (length seg) by lia.
  apply take_app_length.
Qed.

Lemma delslice_segment (pre seg post : list token) (c : token) :
  delslice (pre ++ c :: seg ++ post) (len pre + 1) (len pre + 1 + len seg)
  = pre ++ c :: post.
Proof.
  unfold delslice.
  destruct (segment_bounds pre seg post c) as [-> ->].
  rewrite Nat.max_r by lia.
  destruct (segment_split pre seg post c) as [-> <-].
  rewrite take_app_length.
  rewrite (assoc app (pre ++ [c]) seg post), <- length_app, drop_app_length.
  rewrite <- (assoc app pre [c]). reflexivity.
Qed.

(** A count slot holding the integer [n], followed by [width * n] tokens:
    the call keeps everything before the slot, removes the tokens, and
    leaves in the slot either the removed tokens as one list ([replace]) or
    the count itself. *)
Lemma unflatten_segment (pre seg post : list token) (n width : Z)
    (replace : bool) :
  len seg = width * n ->
  unflatten (pre ++ PInt n :: seg ++ post) (len pre) width replace
  = Done (pre ++ (if replace then PList seg else PInt n) :: post).
Proof.
  intros Hlen. unfold unflatten. rewrite getitem_mid.
  destruct (eq_zero (PInt n) && replace) eqn:Hz.
  - apply andb_prop in Hz as [Hz ->]. cbn in Hz. apply Z.eqb_eq in Hz.
    subst n. rewrite Z.mul_0_r in Hlen.
    assert (seg = []) as -> by (destruct seg; [reflexivity | unfold len in Hlen; cbn in Hlen; lia]).
    cbn [app]. rewrite setitem_mid. reflexivity.
  - cbn [times]. cbv zeta. rewrite <- Hlen.
    rewrite getslice_segment, delslice_segment.
    destruct replace; [|reflexivity].
    rewrite setitem_mid. reflexivity.
Qed.

(** C3 (as amended). At a slot holding the count 3, with width 3 and nine
    tokens following: in replace mode the slot receives the nine tokens as
    one flat list, in delete mode the slot keeps the count; in both modes
    exactly the nine tokens are removed, so every field behind the segment
    moves nine positions towards the front and everything before the slot
    stays where it was. *)
Theorem unflatten_count3_width3 (pre seg post : list token) :
  length seg = 9%nat ->
  let raw := pre ++ PInt 3 :: seg ++ post in
  let idx := len pre in
  unflatten raw idx 3 true = Done (pre ++ PList seg :: post) /\
  unflatten raw idx 3 false = Done (pre ++ PInt 3 :: post) /\
  forall (replace : bool) (j : nat),
    array_of (unflatten raw idx 3 replace) !! (length pre + 1 + j)%nat
    = raw !! (length pre + 1 + 9 + j)%nat.
Proof.
  intros Hlen raw idx. subst raw idx.
  assert (len seg = 3 * 3) as Hseg by (unfold len; lia).
  split; [exact (unflatten_segment pre seg post 3 3 true Hseg)|].
  split; [exact (unflatten_segment pre seg post 3 3 false Hseg)|].
  intros replace j.
  rewrite (unflatten_segment pre seg post 3 3 replace Hseg). cbn [array_of].
  rewrite !(cons_middle _ pre), !(assoc app pre).
  assert (forall x : token, length (pre ++ [x]) = (length pre + 1)%nat) as Hpc
    by (intros; rewrite length_app; reflexivity).
  rewrite lookup_app_r by (rewrite Hpc; lia).
  rewrite lookup_app_r by (rewrite Hpc; lia).
  rewrite lookup_app_r by (rewrite Hpc; lia).
  rewrite !Hpc. f_equal. lia.
Qed.

(** [unflatten_count3_width3] on an array of one field, the count 3, nine
    integers and two more fields. *)
Lemma unflatten_count3_width3_witness :
  let seg := PInt <$> [1; 2; 3; 4; 5; 6; 7; 8; 9] in
  let raw := [PStr "id"] ++ PInt 3 :: seg ++ [PInt 42; PInt 43] in
  unflatten raw 1 3 true = Done [PStr "id"; PList seg; PInt 42; PInt 43] /\
  unflatten raw 1 3 false = Done [PStr "id"; PInt 3; PInt 42; PInt 43] /\
  forall (replace : bool) (j : nat),
    array_of (unflatten raw 1 3 replace) !! (1 + 1 + j)%nat
    = raw !! (1 + 1 + 9 + j)%nat.
Proof.
  exact (unflatten_count3_width3 [PStr "id"]
           (PInt <$> [1; 2; 3; 4; 5; 6; 7; 8; 9]) [PInt 42; PInt 43] eq_refl).
Defined.

(** C3 fails as stated. In replace mode the slot holds one flat list of the
    nine tokens, none of them a group; in delete mode the count stays in its
    slot and the first field behind the segment moves by nine positions, not
    by ten: ten positions ahead of its old place is the count slot. *)
Lemma unflatten_flat_and_shift9 :
  let seg := PInt <$> [1; 2; 3; 4; 5; 6; 7; 8; 9] in
  let raw := [PStr "id"] ++ PInt 3 :: seg ++ [PInt 42; PInt 43] in
  raw !! 11%nat = Some (PInt 42) /\
  unflatten raw 1 3 true = Done [PStr "id"; PList seg; PInt 42; PInt 43] /\
  PList seg <> PList [PList (PInt <$> [1; 2; 3]); PList (PInt <$> [4; 5; 6]);
                      PList (PInt <$> [7; 8; 9])] /\
  unflatten raw 1 3 false = Done [PStr "id"; PInt 3; PInt 42; PInt 43] /\
  array_of (unflatten raw 1 3 false) !! (11 - 9)%nat = Some (PInt 42) /\
  array_of (unflatten raw 1 3 false) !! (11 - 10)%nat = Some (PInt 3) /\
  array_of (unflatten raw 1 3 false) !! (11 - 10)%nat <> raw !! 11%nat.
Proof.
  cbv zeta. repeat split; try reflexivity; vm_compute; discriminate.
Qed.

End UnflattenProps.

Module BonusProps.
Import Py Bonus.

Section Decoder.
Context `{Builtins} `{PadUtil}.

Lemma lift_not_unexpected {A : Type} (m : exn + A) (ks : gset string) :
  lift m ≠ inl (UnexpectedKeys ks).
Proof. destruct m; discriminate. Qed.

Lemma getitem_not_unexpected (raw : gmap string value) (k : string)
    (ks : gset string) :
  getitem raw k ≠ inl (UnexpectedKeys ks).
Proof. unfold getitem. destruct (raw !! k); discriminate. Qed.

Lemma bind_not_unexpected {A B : Type} (m : error + A) (k : A → error + B)
    (ks : gset string) :
  m ≠ inl (UnexpectedKeys ks) →
  (∀ a, k a ≠ inl (UnexpectedKeys ks)) →
  m ≫= k ≠ inl (UnexpectedKeys ks).
Proof.
  intros Hm Hk. unfold mbind, error_bind, bind.
  destruct m as [e|a]; [|apply Hk].
  intros E. apply Hm. injection E as ->. reflexivity.
Qed.

Lemma Bonus_fields_not_unexpected (raw : gmap string value) (server : string)
    (ks : gset string) :
  Bonus_fields raw server ≠ inl (UnexpectedKeys ks).
Proof.
  unfold Bonus_fields.
  repeat first
    [ apply bind_not_unexpected; [|intros ?]
    | apply lift_not_unexpected
    | apply getitem_not_unexpected
    | discriminate
    | match goal with |- context [match ?x with _ => _ end] => destruct x end ].
Qed.

(** C4. An object with a key outside ['sebiadmf'] is refused with the
    unexpected-keys error, which carries exactly the keys of the object
    that are not recognized; an object whose keys are all recognized never
    ends in that error. *)
Theorem Bonus_init_unexpected_keys (raw : gmap string value) (server : string) :
  (¬ dom raw ⊆ keys →
   Bonus_init raw server = inl (UnexpectedKeys (dom raw ∖ keys)) ∧
   ∀ k, k ∈ dom raw ∖ keys ↔ is_Some (raw !! k) ∧ k ∉ keys) ∧
  (dom raw ⊆ keys → ∀ ks, Bonus_init raw server ≠ inl (UnexpectedKeys ks)).
Proof.
  split.
  - intros Hsub. split.
    + unfold Bonus_init. destruct (decide (dom raw ⊆ keys)); [contradiction|].
      reflexivity.
    + intros k. rewrite elem_of_difference, elem_of_dom. reflexivity.
  - intros Hsub ks. unfold Bonus_init.
    destruct (decide (dom raw ⊆ keys)); [|contradiction].
    repeat first
      [ apply bind_not_unexpected; [|intros ?]
      | apply Bonus_fields_not_unexpected
      | apply lift_not_unexpected
      | apply getitem_not_unexpected
      | discriminate
      | match goal with |- context [match ?x with _ => _ end] => destruct x end ].
Qed.

(** C5. When the other attributes decode and the category id is not a key
    of [Bonus.types], the decoder returns an object named
    ['unknown_id:<id>'] that carries the id, and whose value is the raw
    ['a'] entry as it came ([None] when there is none). *)
Theorem Bonus_init_unknown_category (raw : gmap string value) (server : string)
    (fs : Fields) (b : value) (id : Z) :
  dom raw ⊆ keys →
  Bonus_fields raw server = inr fs →
  raw !! "b" = Some b →
  int b = inr id →
  types !! id = None →
  Bonus_init raw server
  = inr {| fields := fs;
           bonus_value := default PNone (raw !! "a");
           bonus_name := "unknown_id:" +:+ pretty id;
           bonus_id := id |}.
Proof.
  intros Hsub Hfs Hb Hid Hty. unfold Bonus_init.
  destruct (decide (dom raw ⊆ keys)); [|contradiction].
  rewrite Hfs. unfold getitem. rewrite Hb.
  unfold mbind, error_bind, bind, lift. rewrite Hid, Hty.
  cbn. destruct (raw !! "a"); reflexivity.
Qed.

End Decoder.

#[local] Existing Instance Samples.sample_builtins.
#[local] Existing Instance Samples.sample_pad_util.

(** [Bonus_init_unexpected_keys] on [{'x': 1}], and on an object whose keys
    are all recognized. *)
Lemma Bonus_init_unexpected_keys_witness :
  (let raw : gmap string value := {[ "x" := PInt 1 ]} in
   Bonus_init raw "na" = inl (UnexpectedKeys {[ "x" ]})) ∧
  (let raw : gmap string value :=
     {[ "s" := PStr "180801000000"; "e" := PStr "180802000000";
        "b" := PInt 6 ]} in
   ∀ ks, Bonus_init raw "na" ≠ inl (UnexpectedKeys ks)).
Proof.
  split; cbv zeta.
  - destruct (Bonus_init_unexpected_keys {[ "x" := PInt 1 ]} "na")
      as [Hbad _].
    destruct Hbad as [-> _].
    + apply (bool_decide_unpack _). vm_compute. exact I.
    + assert (dom ({[ "x" := PInt 1 ]} : gmap string value) ∖ keys
              = ({[ "x" ]} : gset string)) as ->
        by (apply (bool_decide_unpack _); vm_compute; exact I).
      reflexivity.
  - apply Bonus_init_unexpected_keys.
    apply (bool_decide_unpack _). vm_compute. exact I.
Defined.

(** [Bonus_init_unknown_category] on an object with category id 999 and the
    raw value 150. *)
Lemma Bonus_init_unknown_category_witness :
  let raw : gmap string value :=
    {[ "s" := PStr "180801000000"; "e" := PStr "180802000000";
       "b" := PInt 999; "a" := PInt 150 ]} in
  ∃ fs, Bonus_init raw "na"
        = inr {| fields := fs; bonus_value := PInt 150;
                 bonus_name := "unknown_id:999"; bonus_id := 999 |}.
Proof.
  cbv zeta. eexists.
  refine (Bonus_init_unknown_category _ "na" _ (PInt 999) 999 _ _ _ _ _).
  - apply (bool_decide_unpack _). vm_compute. exact I.
  - vm_compute. reflexivity.
  - vm_compute. reflexivity.
  - reflexivity.
  - vm_compute. reflexivity.
Defined.

End BonusProps.

Module DbProps.
Import Py DbUtil.

Section Wrapper.
Context {Conn Sql Item : Type} `{SqlItem Item Sql (Conn := Conn)} `{Builtins}.

Lemma synthetic_key_range (w : World Conn Sql) :
  -99999 ≤ synthetic_key w < -1.
Proof.
  unfold synthetic_key.
  pose proof (Z.mod_pos_bound (tape w (draws w)) (-1 - -99999)). lia.
Qed.

Lemma check_existing_eq (q : Sql) (w : World Conn Sql) :
  check_existing q w
  = (if 1 <? rowcount (cursor_of w q)
     then Raise (GotTooManyResults (rowcount (cursor_of w q)) q)
     else Return (negb (rowcount (cursor_of w q) =? 0)),
     after w q).
Proof.
  unfold check_existing, mbind, M_bind, bind, execute, cursor_of. cbn.
  destruct (1 <? _); reflexivity.
Qed.

Lemma insert_item_dry (q : Sql) (w : World Conn Sql) :
  dry_run w = true → insert_item q w = (Return (synthetic_key w), drawn w).
Proof.
  intros Hdry. unfold insert_item, mbind, M_bind, bind, is_dry_run.
  rewrite Hdry. reflexivity.
Qed.

Lemma insert_item_wet (q : Sql) (w : World Conn Sql) :
  dry_run w = false →
  insert_item q w
  = (if 0 <? Z.of_nat (length (rows (cursor_of w q)))
     then Raise (TooManyResultsForInsert
                   (Z.of_nat (length (rows (cursor_of w q)))) q)
     else Return (lastrowid (cursor_of w q)),
     after w q).
Proof.
  intros Hdry. unfold insert_item, mbind, M_bind, bind, is_dry_run, execute.
  rewrite Hdry. cbn. unfold cursor_of. destruct (0 <? _); reflexivity.
Qed.

Lemma get_single_value_eq (q : Sql) (op : value → exn + value)
    (fail_on_empty : bool) (w : World Conn Sql) :
  get_single_value q op fail_on_empty w
  = (match rows (cursor_of w q) with
     | [] => if dry_run w || negb fail_on_empty then Return PNone
             else Raise (GotZeroResults q)
     | [r] => if 1 <? Z.of_nat (length (values r)) then Raise (TooManyColumns q)
              else match values r with
                   | [] => Raise (Raised IndexError)
                   | v :: _ => match op v with
                               | inr x => Return x
                               | inl e => Raise (Raised e)
                               end
                   end
     | _ :: _ :: _ =>
       Raise (GotTooManyResults (Z.of_nat (length (rows (cursor_of w q)))) q)
     end, after w q).
Proof.
  unfold get_single_value, mbind, M_bind, bind, execute, is_dry_run, cursor_of.
  cbn. destruct (rows _) as [|r [|r' l]]; cbn.
  - destruct (dry_run w || negb fail_on_empty); reflexivity.
  - destruct (1 <? Z.of_nat (length (values r))); [reflexivity|].
    destruct (values r); [reflexivity|]. destruct (op v); reflexivity.
  - replace (Z.of_nat (S (S (length l))) =? 0) with false
      by (symmetry; apply Z.eqb_neq; lia).
    replace (1 <? Z.of_nat (S (S (length l)))) with true
      by (symmetry; apply Z.ltb_lt; lia).
    reflexivity.
Qed.

Lemma after_select (w : World Conn Sql) (q : Sql) :
  kind_of q = Select →
  connection (after w q) = connection w ∧ dry_run (after w q) = dry_run w ∧
  executed (after w q) = executed w ++ [q].
Proof. intros Hq. cbn. rewrite select_pure by assumption. done. Qed.

Lemma only_read_refl (w : World Conn Sql) : only_read w w.
Proof. repeat split. exists []. by rewrite app_nil_r. Qed.

Lemma only_read_after (w w' : World Conn Sql) (q : Sql) :
  kind_of q = Select → only_read w w' → only_read w (after w' q).
Proof.
  intros Hq (Hc & Hd & qs & He & Hqs).
  destruct (after_select w' q Hq) as (Hc' & Hd' & He').
  split; [congruence|]. split; [congruence|].
  exists (qs ++ [q]). split.
  - rewrite He', He. by rewrite (assoc app).
  - apply Forall_app. split; [assumption|]. by constructor.
Qed.

Lemma only_read_drawn (w w' : World Conn Sql) :
  only_read w w' → only_read w (drawn w').
Proof. intros (Hc & Hd & Hqs). repeat split; assumption. Qed.

Lemma ret_reads {A : Type} (a : A) : reads_in_dry_run (ret a).
Proof. intros w0 w _ Hw. exact Hw. Qed.

Lemma bind_reads {A B : Type} (m : M A) (k : A → M B) :
  reads_in_dry_run m → (∀ a, reads_in_dry_run (k a)) →
  reads_in_dry_run (m ≫= k).
Proof.
  intros Hm Hk w0 w Hdry Hw. unfold mbind, M_bind, bind.
  specialize (Hm w0 w Hdry Hw). destruct (m w) as [[a|e] w']; cbn in *.
  - by apply Hk.
  - exact Hm.
Qed.

Lemma get_single_value_reads (q : Sql) (op : value → exn + value)
    (fail_on_empty : bool) :
  kind_of q = Select → reads_in_dry_run (get_single_value q op fail_on_empty).
Proof.
  intros Hq w0 w _ Hw. rewrite get_single_value_eq. cbn.
  by apply only_read_after.
Qed.

Lemma check_existing_reads (q : Sql) :
  kind_of q = Select → reads_in_dry_run (check_existing q).
Proof.
  intros Hq w0 w _ Hw. rewrite check_existing_eq. cbn.
  by apply only_read_after.
Qed.

Lemma insert_item_reads (q : Sql) : reads_in_dry_run (insert_item q).
Proof.
  intros w0 w Hdry Hw. rewrite insert_item_dry.
  - cbn. by apply only_read_drawn.
  - destruct Hw as (_ & -> & _). exact Hdry.
Qed.

Lemma insert_or_update_reads (item : Item) :
  reads_in_dry_run (insert_or_update item).
Proof.
  unfold insert_or_update.
  repeat first
    [ apply ret_reads
    | apply insert_item_reads
    | apply get_single_value_reads, exists_sql_kind
    | apply check_existing_reads, exists_sql_kind
    | apply check_existing_reads, needs_update_sql_kind
    | apply bind_reads; [|intros ?]
    | match goal with |- reads_in_dry_run (if ?c then _ else _) => destruct c end ].
Qed.

(** C6. In dry-run mode [insert_or_update] leaves the store as it was and
    passes nothing but [Select] statements to the cursor, whatever the
    record and its strategy; [insert_item] executes nothing and returns a
    key drawn from [-99999 <= k < -1]; and that key is what
    [insert_or_update] returns on each of its three insert paths. *)
Theorem dry_run_issues_no_write (item : Item) (q : Sql) (w : World Conn Sql) :
  dry_run w = true →
  (connection (insert_or_update item w).2 = connection w ∧
   ∃ qs, executed (insert_or_update item w).2 = executed w ++ qs ∧
         Forall (λ q', kind_of q' = Select) qs) ∧
  (∃ k, (insert_item q w).1 = Return k ∧ -99999 ≤ k < -1 ∧
        executed (insert_item q w).2 = executed w ∧
        connection (insert_item q w).2 = connection w) ∧
  ((uses_alternate_key_lookup item = true ∧
    rows (cursor_execute (connection w) (exists_sql item)).2 = []) ∨
   (uses_alternate_key_lookup item = false ∧
    uses_local_primary_key item = false ∧
    rowcount (cursor_execute (connection w) (exists_sql item)).2 = 0) ∨
   (uses_alternate_key_lookup item = false ∧
    uses_local_primary_key item = true ∧ needs_insert item = true) →
   ∃ k item', (insert_or_update item w).1 = Return (PInt k, item') ∧
              -99999 ≤ k < -1).
Proof.
  intros Hdry. split; [|split].
  - destruct (insert_or_update_reads item w w Hdry (only_read_refl w))
      as (Hc & _ & Hqs).
    split; assumption.
  - exists (synthetic_key w). rewrite insert_item_dry by assumption.
    split; [reflexivity|]. split; [apply synthetic_key_range|]. done.
  - change (cursor_execute (connection w) (exists_sql item)).2
      with (cursor_of w (exists_sql item)).
    unfold insert_or_update, mbind, M_bind, bind, ret.
    intros [(-> & Hrows) | [(-> & -> & Hcount) | (-> & -> & ->)]]; cbn [negb].
    + rewrite get_single_value_eq, Hrows, Hdry. cbn.
      rewrite insert_item_dry by exact Hdry. cbn.
      eexists _, _. split; [reflexivity|]. apply synthetic_key_range.
    + rewrite check_existing_eq, Hcount. cbn.
      rewrite insert_item_dry by exact Hdry. cbn.
      eexists _, _. split; [reflexivity|]. apply synthetic_key_range.
    + rewrite insert_item_dry by exact Hdry. cbn.
      eexists _, _. split; [reflexivity|]. apply synthetic_key_range.
Qed.

Lemma cursor_of_after (w : World Conn Sql) (q q' : Sql) :
  kind_of q = Select → cursor_of (after w q) q' = cursor_of w q'.
Proof. intros Hq. unfold cursor_of. cbn. by rewrite select_pure. Qed.

Lemma connection_after (w : World Conn Sql) (q : Sql) :
  kind_of q = Select → connection (after w q) = connection w.
Proof. intros Hq. cbn. by rewrite select_pure. Qed.

Lemma rows_rowcount (w : World Conn Sql) (q : Sql) :
  kind_of q = Select →
  Z.of_nat (length (rows (cursor_of w q))) = rowcount (cursor_of w q).
Proof. intros Hq. unfold cursor_of. by rewrite select_rowcount. Qed.

(** C7. Whenever a lookup that [insert_or_update] runs for a record, the
    existence query or the update-need query, matches more than one row of
    the store, the call raises the too-many-results error for that query;
    the store is left as it was and nothing but lookups reached the cursor:
    no match is picked and nothing is written. *)
Theorem ambiguous_match_raises (item : Item) (w : World Conn Sql) (q : Sql)
    (qs : list Sql) :
  executed (insert_or_update item w).2 = executed w ++ qs →
  q ∈ qs →
  kind_of q = Select →
  1 < rowcount (cursor_execute (connection w) q).2 →
  (insert_or_update item w).1
  = Raise (GotTooManyResults (rowcount (cursor_execute (connection w) q).2) q) ∧
  connection (insert_or_update item w).2 = connection w ∧
  Forall (λ q', kind_of q' = Select) qs.
Proof.
  intros Hqs Hq Hsel Hamb.
  change (cursor_execute (connection w) q).2 with (cursor_of w q) in *.
  remember (insert_or_update item w) as r eqn:Hr.
  unfold insert_or_update, mbind, M_bind, bind, ret in Hr.
  destruct (dry_run w) eqn:Hdry.
  all: repeat (first
    [ rewrite get_single_value_eq in Hr
    | rewrite check_existing_eq in Hr
    | rewrite insert_item_dry in Hr by (cbn; assumption)
    | rewrite insert_item_wet in Hr by (cbn; assumption)
    | match type of Hr with
      | context [match ?x with _ => _ end] =>
        lazymatch x with
        | context [match _ with _ => _ end] => fail
        | _ => destruct x eqn:?
        end
      end ]; cbn [fst snd] in Hr).
  all: subst r; cbn [fst snd executed after drawn connection] in *.
  all: rewrite <- ?(assoc app) in Hqs.
  all: first [ apply app_inv_head in Hqs
             | rewrite <- (app_nil_r (executed w)) in Hqs at 1;
               apply app_inv_head in Hqs ].
  all: cbn [app] in Hqs; subst qs.
  all: repeat match goal with
       | Hq : _ ∈ _ :: _ |- _ => apply elem_of_cons in Hq as [->|Hq]
       | Hq : _ ∈ [] |- _ => apply elem_of_nil in Hq; destruct Hq
       end.
  all: try (rewrite insert_sql_kind in Hsel; discriminate).
  all: try (rewrite update_sql_kind in Hsel; discriminate).
  all: rewrite ?cursor_of_after in * by apply exists_sql_kind.
  all: try discriminate.
  all: repeat match goal with
       | E : (1 <? _) = false |- _ => apply Z.ltb_ge in E
       | E : (1 <? _) = true |- _ => apply Z.ltb_lt in E
       | E : rows (cursor_of _ ?q) = _ |- _ =>
         let E' := fresh in
         pose proof (rows_rowcount w q Hsel) as E'; rewrite E in E';
         rewrite ?E'; cbn [length] in E'; clear E
       end.
  all: try lia.
  all: split; [reflexivity|].
  all: split;
    [ rewrite ?select_pure by (apply exists_sql_kind || apply needs_update_sql_kind);
      reflexivity
    | repeat constructor; (apply exists_sql_kind || apply needs_update_sql_kind) ].
Qed.

(** The local-primary-key branch, outside dry-run mode, for a record that
    needs insertion: one insert, the generated key returned, the record
    handed back as it came. *)
Lemma upsert_local_insert (item : Item) (w : World Conn Sql) :
  dry_run w = false →
  uses_alternate_key_lookup item = false →
  uses_local_primary_key item = true →
  needs_insert item = true →
  rows (cursor_of w (insert_sql item)) = [] →
  insert_or_update item w
  = (Return (PInt (lastrowid (cursor_of w (insert_sql item))), item),
     after w (insert_sql item)).
Proof.
  intros Hdry Halt Hloc Hins Hrows.
  unfold insert_or_update, mbind, M_bind, bind, ret.
  rewrite Halt, Hloc, Hins. cbn [negb].
  rewrite insert_item_wet by exact Hdry. rewrite Hrows. reflexivity.
Qed.

(** The local-primary-key branch for a record that has its key, when the
    update-need query finds its one row: one lookup, no write, the record's
    key returned. *)
Lemma upsert_local_unchanged (item : Item) (w : World Conn Sql) :
  uses_alternate_key_lookup item = false →
  uses_local_primary_key item = true →
  needs_insert item = false →
  rowcount (cursor_of w (needs_update_sql item)) = 1 →
  insert_or_update item w
  = (Return (key_value item, item), after w (needs_update_sql item)) ∧
  connection (after w (needs_update_sql item)) = connection w.
Proof.
  intros Halt Hloc Hins Hone.
  unfold insert_or_update, mbind, M_bind, bind, ret.
  rewrite Halt, Hloc, Hins. cbn [negb].
  rewrite check_existing_eq, Hone. cbn. split; [reflexivity|].
  apply select_pure, needs_update_sql_kind.
Qed.

(** C8 (as amended). When a [Select] yields a single row of more than one
    column, [get_single_value] raises the too-many-columns error, whatever
    [op] and [fail_on_empty] are; [check_existing_value] returns the list of
    the row's values instead. *)
Theorem single_row_many_columns (q : Sql) (op : value → exn + value)
    (fail_on_empty : bool) (w : World Conn Sql) (r : row) :
  kind_of q = Select →
  rows (cursor_execute (connection w) q).2 = [r] →
  (1 < length r)%nat →
  (get_single_value q op fail_on_empty w).1 = Raise (TooManyColumns q) ∧
  (check_existing_value q w).1 = Return (PList (values r)).
Proof.
  intros Hq Hrows Hlen.
  assert ((1 <? Z.of_nat (length (values r))) = true) as Hcols.
  { apply Z.ltb_lt. unfold values. rewrite length_fmap. lia. }
  split.
  - rewrite get_single_value_eq. unfold cursor_of. rewrite Hrows. cbn.
    by rewrite Hcols.
  - unfold check_existing_value, mbind, M_bind, bind, execute. cbn.
    rewrite select_rowcount by assumption. rewrite Hrows. cbn.
    by rewrite Hcols.
Qed.

End Wrapper.

End DbProps.

Module StoreProps.
Import Py DbUtil Store Samples DbProps.

Lemma int_keys_bound (key_col : string) (rs : list stored) (r : stored) (z : Z) :
  r ∈ rs → r !! key_col = Some (PInt z) →
  z ≤ foldr Z.max 0 (int_keys key_col rs).
Proof.
  intros Hin Hr. induction Hin as [r rs | r r' rs Hin IH].
  - unfold int_keys. cbn. rewrite Hr. cbn. lia.
  - specialize (IH Hr). unfold int_keys in *. cbn.
    destruct (r' !! key_col) as [[]|]; cbn; lia.
Qed.

Lemma next_key_positive (key_col : string) (rs : list stored) :
  1 ≤ next_key key_col rs.
Proof.
  unfold next_key.
  assert (0 ≤ foldr Z.max 0 (int_keys key_col rs)); [|lia].
  induction (int_keys key_col rs); cbn; lia.
Qed.

(** A row that carries the generated key is not yet in the table. *)
Lemma next_key_fresh (key_col : string) (rs : list stored) (vals : stored) :
  filter (λ r : stored, <[key_col := PInt (next_key key_col rs)]> vals ⊆ r) rs
  = [].
Proof.
  match goal with |- ?l = [] => destruct l as [|r l'] eqn:E end;
    [reflexivity | exfalso].
  assert (r ∈ r :: l') as Hr' by left. rewrite <- E in Hr'.
  apply list_elem_of_filter in Hr' as [Hsub Hin].
  assert (r !! key_col = Some (PInt (next_key key_col rs))) as Hr.
  { eapply lookup_weaken; [|exact Hsub]. apply lookup_insert_eq. }
  pose proof (int_keys_bound key_col rs r _ Hin Hr). unfold next_key in *. lia.
Qed.

Lemma table_rows_insert (d : db) (t : string) (rs : list stored) :
  table_rows (<[t := rs]> d) t = rs.
Proof. unfold table_rows. by rewrite lookup_insert_eq. Qed.

(** C1 (as amended). Outside dry-run mode, for a record with a local
    primary key that needs insertion: the first call issues one insert and
    returns the generated key [k], and leaves the record without a key. Once
    the record carries [k], with the same tracked values, a second call
    issues one lookup and no write and returns [k] again. Called again
    without a key, the record is inserted a second time under another
    key. *)
Theorem local_key_upsert_twice (i : item) (w : World db sql) :
  dry_run w = false →
  uses_alternate_key_lookup i = false →
  uses_local_primary_key i = true →
  needs_insert i = true →
  ∃ k : Z,
    let first := insert_or_update i w in
    let i' := set_key_value i (PInt k) in
    let second := insert_or_update i' first.2 in
    let again := insert_or_update i first.2 in
    (first.1 = Return (PInt k, i) ∧
     executed first.2 = executed w ++ [insert_sql i]) ∧
    (second.1 = Return (PInt k, i') ∧
     executed second.2 = executed first.2 ++ [needs_update_sql i'] ∧
     connection second.2 = connection first.2) ∧
    (∃ k', again.1 = Return (PInt k', i) ∧ k' ≠ k ∧
           executed again.2 = executed first.2 ++ [insert_sql i]).
Proof.
  intros Hdry Halt Hloc Hins.
  assert (truthy (key i) = false) as Hkey by (apply negb_true_iff, Hins).
  set (rs := table_rows (connection w) (TABLE i)).
  set (k := next_key (KEY_COL i) rs).
  assert (1 ≤ k) as Hk by apply next_key_positive.
  assert (∀ w' : World db sql,
            cursor_of w' (insert_sql i)
            = {| rowcount := 1; rows := [];
                 lastrowid := next_key (KEY_COL i)
                                (table_rows (connection w') (TABLE i)) |})
    as Hcur by (intros w'; unfold cursor_of; cbn; by rewrite Hkey).
  assert (table_rows (connection (after w (insert_sql i))) (TABLE i)
          = rs ++ [<[KEY_COL i := PInt k]> (tracked i)]) as Hrows.
  { cbn. rewrite Hkey. cbn. apply table_rows_insert. }
  exists k. cbv zeta.
  rewrite (upsert_local_insert i w Hdry Halt Hloc Hins) by (by rewrite Hcur).
  rewrite Hcur. fold rs k. cbn [fst snd lastrowid].
  split; [done|]. split.
  - destruct (upsert_local_unchanged (set_key_value i (PInt k))
                (after w (insert_sql i))) as [-> Hconn]; try done.
    + cbn. unfold item_needs_insert. cbn.
      apply negb_false_iff, negb_true_iff, Z.eqb_neq. lia.
    + unfold cursor_of. cbn [cursor_execute store_connection].
      cbn [needs_update_sql store_item set_key_value item_needs_update_sql
           TABLE KEY_COL key tracked with_key run rowcount snd].
      rewrite Hrows, filter_app.
      unfold k at 1. rewrite next_key_fresh. fold k.
      rewrite filter_singleton_True by done. done.
  - rewrite (upsert_local_insert i (after w (insert_sql i)) Hdry Halt Hloc Hins)
      by (by rewrite Hcur).
    rewrite Hcur, Hrows. cbn [fst snd lastrowid].
    eexists. split; [reflexivity|]. split; [|done].
    assert (k ≤ foldr Z.max 0 (int_keys (KEY_COL i)
                                 (rs ++ [<[KEY_COL i := PInt k]> (tracked i)])))
      as Hle.
    { eapply int_keys_bound; [|apply lookup_insert_eq].
      apply elem_of_app. right. left. }
    unfold next_key at 1. lia.
Qed.

(** [local_key_upsert_twice] on a record without a key and an empty
    store. *)
Lemma local_key_upsert_twice_witness :
  ∃ k : Z,
    let first := insert_or_update monster (world false ∅ 0) in
    let i' := set_key_value monster (PInt k) in
    let second := insert_or_update i' first.2 in
    let again := insert_or_update monster first.2 in
    (first.1 = Return (PInt k, monster) ∧
     executed first.2 = executed (world false ∅ 0) ++ [insert_sql monster]) ∧
    (second.1 = Return (PInt k, i') ∧
     executed second.2 = executed first.2 ++ [needs_update_sql i'] ∧
     connection second.2 = connection first.2) ∧
    (∃ k', again.1 = Return (PInt k', monster) ∧ k' ≠ k ∧
           executed again.2 = executed first.2 ++ [insert_sql monster]).
Proof.
  exact (local_key_upsert_twice monster (world false ∅ 0)
           eq_refl eq_refl eq_refl eq_refl).
Defined.

(** C1 fails as stated. Two calls with the unchanged record (its key still
    unset, since the first call does not store the generated key in it)
    issue two inserts and return two different keys, and the table ends with
    two rows; in dry-run mode the two calls issue no insert at all. *)
Lemma unchanged_record_inserted_twice :
  (let first := insert_or_update monster (world false ∅ 0) in
   let second := insert_or_update monster first.2 in
   first.1 = Return (PInt 1, monster) ∧
   second.1 = Return (PInt 2, monster) ∧
   kind_of <$> executed second.2 = [Insert; Insert] ∧
   length (table_rows (connection second.2) "monster_list") = 2%nat) ∧
  (let first := insert_or_update monster (world true ∅ 0) in
   let second := insert_or_update monster first.2 in
   executed second.2 = [] ∧ connection second.2 = ∅).
Proof. cbv zeta. repeat split; vm_compute; reflexivity. Qed.

(** [dry_run_issues_no_write] on a record without a key, in dry-run mode. *)
Lemma dry_run_issues_no_write_witness :
  let w := world true single 4711 in
  (connection (insert_or_update monster w).2 = connection w ∧
   ∃ qs, executed (insert_or_update monster w).2 = executed w ++ qs ∧
         Forall (λ q, kind_of q = Select) qs) ∧
  (∃ k, (insert_item (insert_sql monster) w).1 = Return k ∧
        -99999 ≤ k < -1 ∧
        executed (insert_item (insert_sql monster) w).2 = executed w ∧
        connection (insert_item (insert_sql monster) w).2 = connection w) ∧
  (∃ k item', (insert_or_update monster w).1 = Return (PInt k, item') ∧
              -99999 ≤ k < -1).
Proof.
  cbv zeta.
  destruct (dry_run_issues_no_write monster (insert_sql monster)
              (world true single 4711) eq_refl) as (Hread & Hkey & Hins).
  split; [exact Hread|]. split; [exact Hkey|].
  apply Hins. right. right. repeat split.
Defined.

(** [ambiguous_match_raises] on a table that holds the row of a record
    twice. *)
Lemma ambiguous_match_raises_witness :
  let w := world false duplicated 0 in
  (insert_or_update evolution w).1
  = Raise (GotTooManyResults 2 (exists_sql evolution)) ∧
  connection (insert_or_update evolution w).2 = connection w ∧
  Forall (λ q, kind_of q = Select) [exists_sql evolution].
Proof.
  cbv zeta.
  refine (ambiguous_match_raises evolution (world false duplicated 0)
            (exists_sql evolution) [exists_sql evolution] _ _ _ _).
  - vm_compute. reflexivity.
  - left.
  - reflexivity.
  - vm_compute. reflexivity.
Defined.

(** [single_row_many_columns] on a query for two columns of a one-row
    table. *)
Lemma single_row_many_columns_witness :
  let w := world false single 0 in
  (get_single_value two_columns int_op true w).1
  = Raise (TooManyColumns two_columns) ∧
  (check_existing_value two_columns w).1
  = Return (PList (values [("monster_no", PInt 1); ("name", PStr "Tyrra")])).
Proof.
  cbv zeta.
  refine (single_row_many_columns two_columns int_op true
            (world false single 0)
            [("monster_no", PInt 1); ("name", PStr "Tyrra")] _ _ _).
  - reflexivity.
  - vm_compute. reflexivity.
  - cbn. lia.
Defined.

(** C8 fails as stated: run through [check_existing_value], a query whose
    single result row has two columns returns the list of the two values;
    nothing is raised. *)
Lemma check_existing_value_returns_list :
  let w := world false single 0 in
  (check_existing_value two_columns w).1
  = Return (PList [PInt 1; PStr "Tyrra"]) ∧
  (check_existing_value two_columns w).1 ≠ Raise (TooManyColumns two_columns).
Proof.
  cbv zeta.
  assert ((check_existing_value two_columns (world false single 0)).1
          = Return (PList [PInt 1; PStr "Tyrra"])) as E
    by (vm_compute; reflexivity).
  split; [exact E|]. rewrite E. discriminate.
Qed.

End StoreProps.

Module CurveMore.
Import Num Card NumProps CurveSamples CurveProps.

Section Curves.
Context `{Libm}.

(** X1. [value_at] never raises [ZeroDivisionError], whatever the curve and
    the level: the division is skipped when its divisor would be zero. What
    it raises is [OverflowError] or [ValueError]. *)
Theorem value_at_raises (c : Curve) (level : Z) (e : error) :
  value_at c level = inl e → e = OverflowError ∨ e = ValueError.
Proof.
  rewrite value_at_unfold. unfold mbind, error_bind. intros He.
  destruct (Z.eqb_spec (max_level c) 1) as [|Hn].
  2: destruct (int_truediv _ _) as [e'|x] eqn:Ex;
       [apply int_truediv_raises in Ex; [left; congruence|lia]|].
  all: destruct (sub _ _) as [e'|d] eqn:Ed;
         [apply arith_raises in Ed; left; congruence|].
  all: destruct (to_float (scale c)) as [e'|y] eqn:Ey;
         [apply to_float_raises in Ey; left; congruence|].
  all: destruct (pow _ y) as [e'|p] eqn:Ep;
         [apply pow_raises in Ep as [|]; [right|left]; congruence|].
  all: destruct (mul _ _) as [e'|t] eqn:Et;
         [apply arith_raises in Et; left; congruence|].
  all: apply arith_raises in He; by left.
Qed.

End Curves.

#[local] Existing Instance CurveSamples.sample_libm.

(** [value_at_raises] on a curve whose [scale] is the integer [2 ** 1024]. *)
Lemma value_at_raises_witness :
  value_at huge_scale 5 = inl OverflowError ∧
  (OverflowError = OverflowError ∨ OverflowError = ValueError).
Proof.
  split; [vm_compute; reflexivity|].
  apply (value_at_raises huge_scale 5). vm_compute. reflexivity.
Defined.

End CurveMore.

Module UnflattenMore.
Import Py Card UnflattenProps.

Lemma norm_index_inside (raw : list token) (k : nat) :
  (k < length raw)%nat → norm_index (len raw) (Z.of_nat k) = Some k.
Proof.
  intros Hk. unfold norm_index, len.
  replace (0 <=? Z.of_nat k) with true by (symmetry; apply Z.leb_le; lia).
  replace (Z.of_nat k <? Z.of_nat (length raw)) with true
    by (symmetry; apply Z.ltb_lt; lia).
  cbn. f_equal. lia.
Qed.

Lemma norm_index_outside (n i : Z) :
  0 ≤ n → n ≤ i ∨ i < - n → norm_index n i = None.
Proof.
  intros Hn Hi. unfold norm_index.
  destruct Hi as [Hi|Hi].
  - replace (i <? n) with false by (symmetry; apply Z.ltb_ge; lia).
    replace (i <? 0) with false by (symmetry; apply Z.ltb_ge; lia).
    by rewrite !andb_false_r.
  - replace (0 <=? i) with false by (symmetry; apply Z.leb_gt; lia).
    replace (- n <=? i) with false by (symmetry; apply Z.leb_gt; lia).
    reflexivity.
Qed.

(** A slice that starts inside the array and does not run backwards: its
    stop is cut at the end of the array. *)
Lemma getslice_forward (raw : list token) (s m : nat) :
  (s ≤ length raw)%nat →
  getslice raw (Z.of_nat s) (Z.of_nat s + Z.of_nat m) = take m (drop s raw).
Proof.
  intros Hs. unfold getslice.
  rewrite (clamp_inside (len raw) (Z.of_nat s)) by (unfold len; lia).
  rewrite Nat2Z.id. unfold clamp, len.
  replace (Z.of_nat s + Z.of_nat m <? 0) with false
    by (symmetry; apply Z.ltb_ge; lia).
  destruct (Z.le_ge_cases (Z.of_nat s + Z.of_nat m) (Z.of_nat (length raw))).
  - rewrite Z.min_l by lia. f_equal. lia.
  - rewrite Z.min_r by lia. rewrite Nat2Z.id.
    rewrite !take_ge; [reflexivity | rewrite length_drop; lia
                      | rewrite length_drop; lia].
Qed.

Lemma delslice_forward (raw : list token) (s m : nat) :
  (s ≤ length raw)%nat →
  delslice raw (Z.of_nat s) (Z.of_nat s + Z.of_nat m)
  = take s raw ++ drop (s + m) raw.
Proof.
  intros Hs. unfold delslice.
  rewrite (clamp_inside (len raw) (Z.of_nat s)) by (unfold len; lia).
  rewrite Nat2Z.id. unfold clamp, len.
  replace (Z.of_nat s + Z.of_nat m <? 0) with false
    by (symmetry; apply Z.ltb_ge; lia).
  f_equal.
  destruct (Z.le_ge_cases (Z.of_nat s + Z.of_nat m) (Z.of_nat (length raw))).
  - rewrite Z.min_l by lia. f_equal. lia.
  - rewrite Z.min_r by lia. rewrite Nat2Z.id.
    rewrite Nat.max_r by lia. rewrite !drop_ge; [reflexivity|lia|lia].
Qed.

(** X4. At an index [k] inside the array whose slot holds an integer count
    [n], with [width * n >= 0], the call never raises: it removes the
    [width * n] tokens behind the slot, or all that are left when fewer
    follow, keeps everything before the slot and everything behind the
    removed tokens, and leaves in the slot the removed tokens as one list
    ([replace]) or the count. A count of 0 removes nothing. *)
Theorem unflatten_takes_what_follows (raw : list token) (k : nat)
    (n width : Z) (replace : bool) :
  raw !! k = Some (PInt n) →
  0 ≤ width * n →
  unflatten raw (Z.of_nat k) width replace
  = Done (take k raw
          ++ (if replace
              then PList (take (Z.to_nat (width * n)) (drop (S k) raw))
              else PInt n)
          :: drop (S k + Z.to_nat (width * n)) raw).
Proof.
  intros Hk Hn. pose proof (lookup_lt_Some _ _ _ Hk) as Hlt.
  unfold unflatten, getitem, setitem. rewrite norm_index_inside, Hk by exact Hlt.
  destruct (eq_zero (PInt n) && replace) eqn:Hz.
  - apply andb_prop in Hz as [Hz ->]. cbn in Hz. apply Z.eqb_eq in Hz. subst n.
    rewrite Z.mul_0_r. cbn [Z.to_nat take]. rewrite Nat.add_0_r.
    f_equal. by apply insert_take_drop.
  - cbn [times]. cbv zeta.
    replace (Z.of_nat k + 1) with (Z.of_nat (S k)) by lia.
    assert (width * n = Z.of_nat (Z.to_nat (width * n))) as Hm by lia.
    revert Hm. generalize (Z.to_nat (width * n)) as m. intros m ->.
    rewrite getslice_forward, delslice_forward by lia.
    rewrite (take_S_r raw k (PInt n)) by exact Hk.
    assert (∀ post : list token,
              (take k raw ++ [PInt n]) ++ post = take k raw ++ PInt n :: post)
      as Happ by (intros; by rewrite <- (assoc app)).
    rewrite !Happ.
    destruct replace; [|reflexivity].
    rewrite norm_index_inside
      by (rewrite length_app, length_take; cbn; lia).
    f_equal.
    replace k with (length (take k raw) + 0)%nat at 1
      by (rewrite length_take; lia).
    rewrite insert_app_r. reflexivity.
Qed.

(** [unflatten_takes_what_follows] on an array that announces three triples
    and holds only four more tokens: all four are taken, nothing raises. *)
Lemma unflatten_takes_what_follows_witness :
  let raw := [PStr "id"; PInt 3; PInt 1; PInt 2; PInt 3; PInt 4] in
  unflatten raw 1 3 true
  = Done [PStr "id"; PList [PInt 1; PInt 2; PInt 3; PInt 4]].
Proof.
  exact (unflatten_takes_what_follows
           [PStr "id"; PInt 3; PInt 1; PInt 2; PInt 3; PInt 4] 1 3 3 true
           eq_refl ltac:(lia)).
Defined.

(** X5. An index outside the array raises [IndexError]; a count slot that
    holds [None], a string or a list, or a float other than a zero in
    replace mode, raises [TypeError]. In each case the array is left as it
    was. *)
Theorem unflatten_errors (raw : list token) (idx width : Z) (replace : bool) :
  (len raw ≤ idx ∨ idx < - len raw →
   unflatten raw idx width replace = Raised IndexError raw) ∧
  (∀ t, getitem raw idx = Some t →
     t = PNone ∨ (∃ s, t = PStr s) ∨ (∃ l, t = PList l) ∨
     (∃ q, t = PFloat q ∧ (replace = false ∨ Qeq_bool q 0 = false)) →
     unflatten raw idx width replace = Raised TypeError raw).
Proof.
  split.
  - intros Hi. unfold unflatten, getitem.
    rewrite norm_index_outside; [reflexivity | unfold len; lia | exact Hi].
  - intros t Ht Hbad. unfold unflatten. rewrite Ht.
    destruct Hbad as [-> | [[s ->] | [[l ->] | (q & -> & Hq)]]];
      try reflexivity.
    cbn. destruct Hq as [-> | ->]; [by rewrite andb_false_r | reflexivity].
Qed.

(** [unflatten_errors] past the end of an array, and on a count slot that
    holds a string. *)
Lemma unflatten_errors_witness :
  unflatten [PInt 0; PInt 0] 2 3 true = Raised IndexError [PInt 0; PInt 0] ∧
  unflatten [PStr "3"; PInt 1] 0 1 true = Raised TypeError [PStr "3"; PInt 1].
Proof.
  split.
  - apply (unflatten_errors [PInt 0; PInt 0] 2 3 true). left.
    unfold len. cbn. lia.
  - apply (unflatten_errors [PStr "3"; PInt 1] 0 1 true) with (t := PStr "3").
    + reflexivity.
    + right. left. by eexists.
Defined.

End UnflattenMore.

Module BookCardProps.
Import Py Card BookCard UnflattenProps.

(** X6. On an array of 57 fixed fields, a count with that many skill
    triples, a count with that many awakenings, and the remaining fields,
    the two calls of [BookCard.__init__] leave the 57 fields in place, the
    skill tokens as a list in slot 57 and the awakenings as a list in slot
    58, with the remaining fields following from slot 59 on. *)
Theorem BookCard_unflatten_layout (pre skills awakenings post : list token)
    (c1 c2 : Z) :
  length pre = 57%nat →
  len skills = 3 * c1 →
  len awakenings = 1 * c2 →
  BookCard_unflatten
    (pre ++ PInt c1 :: skills ++ PInt c2 :: awakenings ++ post)
  = Done (pre ++ PList skills :: PList awakenings :: post).
Proof.
  intros Hpre Hs Ha. unfold BookCard_unflatten.
  assert (len pre = 57) as E57 by (unfold len; lia).
  rewrite <- E57 at 1.
  rewrite (unflatten_segment pre skills (PInt c2 :: awakenings ++ post)
             c1 3 true Hs).
  assert (len (pre ++ [PList skills]) = 58) as E58
    by (unfold len; rewrite length_app; cbn; lia).
  rewrite (cons_middle (PList skills) pre), (assoc app pre).
  rewrite <- E58.
  rewrite (unflatten_segment (pre ++ [PList skills]) awakenings post
             c2 1 true Ha).
  by rewrite <- (assoc app pre).
Qed.

(** [BookCard_unflatten_layout] on a card with one skill triple and two
    awakenings. *)
Lemma BookCard_unflatten_layout_witness :
  BookCard_unflatten
    (replicate 57 (PInt 0)
     ++ PInt 1 :: [PInt 7; PInt 100; PInt 0]
     ++ PInt 2 :: [PInt 21; PInt 22] ++ [PStr ""; PInt 5])
  = Done (replicate 57 (PInt 0)
          ++ PList [PInt 7; PInt 100; PInt 0]
          :: PList [PInt 21; PInt 22] :: [PStr ""; PInt 5]).
Proof.
  exact (BookCard_unflatten_layout (replicate 57 (PInt 0))
           [PInt 7; PInt 100; PInt 0] [PInt 21; PInt 22] [PStr ""; PInt 5]
           1 2 eq_refl eq_refl eq_refl).
Defined.

Lemma comprehension_seq {A B : Type} (f : A → exn + B) (F : nat → A)
    (out : list B) (s : nat) :
  (∀ i y, out !! i = Some y → f (F (s + i)%nat) = inr y) →
  comprehension f (F <$> seq s (length out)) = inr out.
Proof.
  revert s. induction out as [|y out IH]; intros s Hf; [reflexivity|].
  cbn [length seq]. rewrite fmap_cons. cbn [comprehension].
  pose proof (Hf 0%nat y eq_refl) as H0. rewrite Nat.add_0_r in H0.
  rewrite H0, (IH (S s)); [reflexivity|].
  intros i y' Hi. replace (S s + i)%nat with (s + S i)%nat by lia.
  by apply Hf.
Qed.

Lemma flat_refs_lookup (rs : list EnemySkillRef) (rest : list value)
    (i : nat) (r : EnemySkillRef) :
  rs !! i = Some r →
  (flat_refs rs ++ rest) !! (3 * i)%nat = Some (PInt (enemy_skill_id r)) ∧
  (flat_refs rs ++ rest) !! (3 * i + 1)%nat = Some (enemy_ai r) ∧
  (flat_refs rs ++ rest) !! (3 * i + 2)%nat = Some (enemy_rnd r).
Proof.
  revert i. induction rs as [|r0 rs IH]; intros i Hi; [done|].
  destruct i as [|i].
  - injection Hi as ->. done.
  - specialize (IH i Hi).
    replace (3 * S i)%nat with (S (S (S (3 * i)))) by lia.
    exact IH.
Qed.

Lemma flat_refs_length (rs : list EnemySkillRef) :
  length (flat_refs rs) = (3 * length rs)%nat.
Proof.
  induction rs as [|r rs IH]; [reflexivity|].
  change (flat_refs (r :: rs)) with (ref_tokens r ++ flat_refs rs).
  rewrite length_app, IH. cbn [ref_tokens length]. lia.
Qed.

Lemma item_inside (l : list value) (k : nat) (v : value) :
  l !! k = Some v → item l (Z.of_nat k) = inr v.
Proof.
  intros Hk. unfold item, getitem.
  rewrite UnflattenMore.norm_index_inside by (by eapply lookup_lt_Some).
  by rewrite Hk.
Qed.

(** X7. Reading back a flat list of references gives the references again:
    the comprehension of [BookCard.__init__] turns the tokens
    [id, ai, rnd, id, ai, rnd, ...] into one [EnemySkillRef] per complete
    triple, in order; one or two tokens left over at the end are ignored
    without an error. *)
Theorem enemy_skill_refs_flat `{Builtins} (rs : list EnemySkillRef)
    (leftover : list value) :
  (length leftover < 3)%nat →
  enemy_skill_refs (flat_refs rs ++ leftover) = inr rs.
Proof.
  intros Hleft. unfold enemy_skill_refs, range.
  set (l := flat_refs rs ++ leftover).
  assert (Z.to_nat ((len l - 2 - 0 + 3 - 1) `div` 3) = length rs) as ->.
  { unfold l, len. rewrite length_app, flat_refs_length.
    replace (Z.of_nat (3 * length rs + length leftover) - 2 - 0 + 3 - 1)
      with (Z.of_nat (length leftover) + Z.of_nat (length rs) * 3) by lia.
    rewrite Z.div_add by lia. rewrite Z.div_small by lia. lia. }
  apply (comprehension_seq (enemy_skill_ref_at l)
           (λ i : nat, 0 + 3 * Z.of_nat i) rs 0).
  intros i r Hi. cbn [Nat.add].
  destruct (flat_refs_lookup rs leftover i r Hi) as (Ha & Hb & Hc).
  unfold enemy_skill_ref_at.
  replace (0 + 3 * Z.of_nat i) with (Z.of_nat (3 * i)) by lia.
  replace (Z.of_nat (3 * i) + 1) with (Z.of_nat (3 * i + 1)) by lia.
  replace (Z.of_nat (3 * i) + 2) with (Z.of_nat (3 * i + 2)) by lia.
  rewrite (item_inside l _ _ Ha), (item_inside l _ _ Hb), (item_inside l _ _ Hc).
  cbn. by destruct r.
Qed.

(** [enemy_skill_refs_flat] on two references followed by one stray
    token. *)
Lemma enemy_skill_refs_flat_witness :
  enemy_skill_refs (H := Samples.sample_builtins)
    [PInt 7; PInt 100; PInt 0; PInt 9; PInt 50; PInt 1; PInt 4]
  = inr [ {| enemy_skill_id := 7; enemy_ai := PInt 100; enemy_rnd := PInt 0 |};
          {| enemy_skill_id := 9; enemy_ai := PInt 50; enemy_rnd := PInt 1 |} ].
Proof.
  exact (enemy_skill_refs_flat (H := Samples.sample_builtins)
           [ {| enemy_skill_id := 7; enemy_ai := PInt 100; enemy_rnd := PInt 0 |};
             {| enemy_skill_id := 9; enemy_ai := PInt 50; enemy_rnd := PInt 1 |} ]
           [PInt 4] ltac:(cbn; lia)).
Defined.

End BookCardProps.

Module BonusMore.
Import Py Bonus BonusClock.

Section Decoder.
Context `{Builtins} `{PadUtil}.

Lemma bind_inr {A B : Type} (m : error + A) (k : A → error + B) (b : B) :
  m ≫= k = inr b → ∃ a, m = inr a ∧ k a = inr b.
Proof.
  unfold mbind, error_bind, bind. destruct m as [e|a]; [discriminate|].
  intros Hk. by exists a.
Qed.

Lemma getitem_inr (raw : gmap string value) (k : string) (v : value) :
  getitem raw k = inr v → raw !! k = Some v.
Proof. unfold getitem. destruct (raw !! k); [congruence|discriminate]. Qed.

Lemma lift_inr {A : Type} (m : exn + A) (a : A) : lift m = inr a → m = inr a.
Proof. destruct m; [discriminate|]. cbn. congruence. Qed.

(** What an object returned by [Bonus_fields] says about the raw object. *)
Lemma Bonus_fields_inr (raw : gmap string value) (server : string) (fs : Fields) :
  Bonus_fields raw server = inr fs →
  ∃ s e, raw !! "s" = Some s ∧ raw !! "e" = Some e ∧
    start_time_str fs = str s ∧
    gh_to_timestamp (str s) server = inr (start_timestamp fs) ∧
    end_time_str fs = str e ∧
    gh_to_timestamp (str e) server = inr (end_timestamp fs) ∧
    (egg_machine_id fs = None ↔ raw !! "i" = None) ∧
    (raw !! "d" = None → dungeon_id fs = PNone) ∧
    (raw !! "f" = None → dungeon_floor_id fs = PNone) ∧
    message fs = str <$> raw !! "m" ∧
    clean_message fs = strip_colors <$> message fs.
Proof.
  unfold Bonus_fields. intros Hfs.
  apply bind_inr in Hfs as (s & Hs & Hfs). apply getitem_inr in Hs.
  apply bind_inr in Hfs as (t1 & Ht1 & Hfs). apply lift_inr in Ht1.
  apply bind_inr in Hfs as (e & He & Hfs). apply getitem_inr in He.
  apply bind_inr in Hfs as (t2 & Ht2 & Hfs). apply lift_inr in Ht2.
  apply bind_inr in Hfs as (d & Hd & Hfs).
  apply bind_inr in Hfs as (f & Hf & Hfs).
  apply bind_inr in Hfs as (i & Hi & Hfs).
  injection Hfs as <-. cbn.
  exists s, e. split_and!; try assumption; try reflexivity.
  - split.
    + intros ->. destruct (raw !! "i") as [v|]; [|reflexivity].
      apply bind_inr in Hi as (z & _ & Hz). discriminate.
    + intros Hn. rewrite Hn in Hi. congruence.
  - intros Hn. rewrite Hn in Hd. congruence.
  - intros Hn. rewrite Hn in Hf. congruence.
Qed.

Lemma Bonus_init_inr (raw : gmap string value) (server : string) (b : Bonus) :
  Bonus_init raw server = inr b →
  dom raw ⊆ keys ∧ Bonus_fields raw server = inr (fields b) ∧
  ∃ vb, raw !! "b" = Some vb ∧ int vb = inr (bonus_id b) ∧
    (raw !! "a" = None → bonus_value b = PNone) ∧
    (∀ a, raw !! "a" = Some a →
       match mod_fn (default (unknown_info (bonus_id b)) (types !! bonus_id b)) with
       | Some f => apply_modifier f a = inr (bonus_value b)
       | None => bonus_value b = a
       end).
Proof.
  unfold Bonus_init. destruct (decide (dom raw ⊆ keys)) as [Hk|]; [|discriminate].
  intros Hb.
  apply bind_inr in Hb as (fs & Hfs & Hb).
  apply bind_inr in Hb as (vb & Hvb & Hb). apply getitem_inr in Hvb.
  apply bind_inr in Hb as (id & Hid & Hb). apply lift_inr in Hid.
  apply bind_inr in Hb as (v & Hv & Hb).
  apply (inj inr) in Hb. subst b.
  unfold fields, bonus_id, bonus_value.
  split; [exact Hk|]. split; [exact Hfs|].
  exists vb. split_and!; try assumption.
  - intros Hn. rewrite Hn in Hv. congruence.
  - intros a Ha. rewrite Ha in Hv.
    destruct (mod_fn (default (unknown_info id) (types !! id))) as [f|].
    + by apply lift_inr in Hv.
    + by apply (inj inr) in Hv.
Qed.

(** The categories of [Bonus.types] that carry a ['mod_fn']. *)
Lemma types_mod_fn (id : Z) :
  mod_fn (default (unknown_info id) (types !! id)) =
    if bool_decide (id ∈ [1; 2; 3; 5; 11; 16; 17]) then Some Ghmult_plain
    else if bool_decide (id = 12) then Some Ghchance_plain
    else if bool_decide (id = 10) then Some Int
    else None.
Proof.
  destruct (decide (1 ≤ id ≤ 43)) as [Hin|Hout].
  - assert (Hcases : id ∈ (Z.of_nat <$> seq 1 43)).
    { apply list_elem_of_fmap. exists (Z.to_nat id). split; [lia|].
      apply elem_of_seq. lia. }
    cbn [seq fmap list_fmap] in Hcases.
    repeat (apply elem_of_cons in Hcases as [->|Hcases];
            [vm_compute; reflexivity|]).
    by apply elem_of_nil in Hcases.
  - assert (types !! id = None) as ->.
    { apply not_elem_of_list_to_map_1. cbn [fmap list_fmap fst].
      intros Hid. repeat (apply elem_of_cons in Hid as [->|Hid]; [lia|]).
      by apply elem_of_nil in Hid. }
    cbn [default unknown_info plain mod_fn].
    rewrite bool_decide_eq_false_2.
    2:{ intros Hid. repeat (apply elem_of_cons in Hid as [->|Hid]; [lia|]).
        by apply elem_of_nil in Hid. }
    rewrite !bool_decide_eq_false_2 by lia. reflexivity.
Qed.

(** X8. With recognized keys, an object without the ['s'] entry is refused
    with [KeyError('s')]; every object that decodes carries the entries
    ['s'], ['e'] and ['b'], and all its keys are among ['sebiadmf']. *)
Theorem Bonus_init_required_keys (raw : gmap string value) (server : string) :
  (dom raw ⊆ keys → raw !! "s" = None →
   Bonus_init raw server = inl (Raised (KeyError "s"))) ∧
  (∀ b, Bonus_init raw server = inr b →
     dom raw ⊆ keys ∧
     is_Some (raw !! "s") ∧ is_Some (raw !! "e") ∧ is_Some (raw !! "b")).
Proof.
  split.
  - intros Hk Hs. unfold Bonus_init.
    destruct (decide (dom raw ⊆ keys)); [|contradiction].
    unfold Bonus_fields, getitem. rewrite Hs. reflexivity.
  - intros b Hb. apply Bonus_init_inr in Hb as (Hk & Hfs & vb & Hvb & _).
    apply Bonus_fields_inr in Hfs as (s & e & Hs & He & _).
    split_and!; [exact Hk|by exists s|by exists e|by exists vb].
Qed.

(** X9. In a decoded object the optional attributes mirror the raw object:
    the egg machine id is [None] exactly when ['i'] is absent, the dungeon
    and floor ids and the value are [None] when ['d'], ['f'] and ['a'] are
    absent, the message is [str(raw['m'])] when ['m'] is present and [None]
    otherwise, and the clean message is [strip_colors] of the message. *)
Theorem Bonus_init_optional_attributes (raw : gmap string value)
    (server : string) (b : Bonus) :
  Bonus_init raw server = inr b →
  (egg_machine_id (fields b) = None ↔ raw !! "i" = None) ∧
  (raw !! "d" = None → dungeon_id (fields b) = PNone) ∧
  (raw !! "f" = None → dungeon_floor_id (fields b) = PNone) ∧
  (raw !! "a" = None → bonus_value b = PNone) ∧
  message (fields b) = str <$> raw !! "m" ∧
  clean_message (fields b) = strip_colors <$> (str <$> raw !! "m").
Proof.
  intros Hb. apply Bonus_init_inr in Hb as (_ & Hfs & vb & _ & _ & Ha & _).
  apply Bonus_fields_inr in Hfs
    as (s & e & _ & _ & _ & _ & _ & _ & Hi & Hd & Hf & Hm & Hc).
  rewrite Hc, Hm. split_and!; try assumption; reflexivity.
Qed.

(** X10. The value of a decoded object whose raw object has an ['a'] entry:
    [ghmult_plain] of it for the categories 1, 2, 3, 5, 11, 16 and 17,
    [ghchance_plain] of it for category 12, [int] of it for category 10,
    and the entry itself, untouched, for every other category id, listed
    in [Bonus.types] or not. *)
Theorem Bonus_init_value (raw : gmap string value) (server : string)
    (b : Bonus) (a : value) :
  Bonus_init raw server = inr b →
  raw !! "a" = Some a →
  (bonus_id b ∈ [1; 2; 3; 5; 11; 16; 17] →
   ghmult_plain a = inr (bonus_value b)) ∧
  (bonus_id b = 12 → ghchance_plain a = inr (bonus_value b)) ∧
  (bonus_id b = 10 → ∃ z, int a = inr z ∧ bonus_value b = PInt z) ∧
  (bonus_id b ∉ [1; 2; 3; 5; 10; 11; 12; 16; 17] → bonus_value b = a).
Proof.
  intros Hb Ha.
  apply Bonus_init_inr in Hb as (_ & _ & vb & _ & _ & _ & Hv).
  specialize (Hv a Ha). rewrite types_mod_fn in Hv.
  split_and!.
  - intros Hid. by rewrite bool_decide_eq_true_2 in Hv.
  - intros Hid. rewrite Hid in Hv.
    rewrite bool_decide_eq_false_2 in Hv
      by (rewrite !elem_of_cons, elem_of_nil; lia).
    by rewrite bool_decide_eq_true_2 in Hv.
  - intros Hid. rewrite Hid in Hv.
    rewrite bool_decide_eq_false_2 in Hv
      by (rewrite !elem_of_cons, elem_of_nil; lia).
    rewrite bool_decide_eq_false_2, bool_decide_eq_true_2 in Hv by lia.
    cbn [apply_modifier] in Hv.
    destruct (int a) as [e|z]; [discriminate|].
    exists z. split; [reflexivity|]. by apply (inj inr) in Hv.
  - intros Hid. rewrite !bool_decide_eq_false_2 in Hv; [exact Hv|..].
    + intros E. apply Hid. rewrite !elem_of_cons. lia.
    + intros E. apply Hid. rewrite !elem_of_cons. lia.
    + intros Hin. apply Hid. revert Hin.
      rewrite !elem_of_cons, !elem_of_nil. tauto.
Qed.

(** X11. A decoded object is open at the clock reading [now] exactly when
    [now] lies strictly between the timestamps that [gh_to_timestamp]
    gives for [str(raw['s'])] and [str(raw['e'])]; an object whose end is
    at most one second after its start is never open. *)
Theorem is_open_between_timestamps (raw : gmap string value) (server : string)
    (b : Bonus) (s e : value) (now : Z) :
  Bonus_init raw server = inr b →
  raw !! "s" = Some s →
  raw !! "e" = Some e →
  ∃ t1 t2, gh_to_timestamp (str s) server = inr t1 ∧
           gh_to_timestamp (str e) server = inr t2 ∧
           (is_open b now = true ↔ t1 < now < t2) ∧
           (t2 ≤ t1 + 1 → is_open b now = false).
Proof.
  intros Hb Hs He. apply Bonus_init_inr in Hb as (_ & Hfs & _).
  apply Bonus_fields_inr in Hfs as (s' & e' & Hs' & He' & _ & H1 & _ & H2 & _).
  rewrite Hs in Hs'. rewrite He in He'.
  apply (inj Some) in Hs' as <-. apply (inj Some) in He' as <-.
  exists (start_timestamp (fields b)), (end_timestamp (fields b)).
  split; [exact H1|]. split; [exact H2|]. unfold is_open. split.
  - rewrite andb_true_iff, !Z.ltb_lt. reflexivity.
  - intros Hle. apply andb_false_iff. rewrite !Z.ltb_ge. lia.
Qed.

End Decoder.

Section OnSamples.
#[local] Existing Instance Samples.sample_builtins.
#[local] Existing Instance Samples.sample_pad_util.

(** [Bonus_init_required_keys] on [{'b': 6}] and on an object with the
    three required entries. *)
Lemma Bonus_init_required_keys_witness :
  (let raw : gmap string value := {[ "b" := PInt 6 ]} in
   Bonus_init raw "na" = inl (Raised (KeyError "s"))) ∧
  (let raw : gmap string value :=
     {[ "s" := PStr "180801000000"; "e" := PStr "180802000000";
        "b" := PInt 6 ]} in
   ∃ b, Bonus_init raw "na" = inr b ∧
        dom raw ⊆ keys ∧
        is_Some (raw !! "s") ∧ is_Some (raw !! "e") ∧ is_Some (raw !! "b")).
Proof.
  split; cbv zeta.
  - apply Bonus_init_required_keys.
    + apply (bool_decide_unpack _). vm_compute. exact I.
    + vm_compute. reflexivity.
  - eexists. split; [vm_compute; reflexivity|].
    refine (proj2 (Bonus_init_required_keys _ "na") _ _).
    vm_compute. reflexivity.
Defined.

(** [Bonus_init_optional_attributes] on an object with a message and an egg
    machine and without dungeon, floor and value. *)
Lemma Bonus_init_optional_attributes_witness :
  let raw : gmap string value :=
    {[ "s" := PStr "180801000000"; "e" := PStr "180802000000";
       "b" := PInt 6; "m" := PStr "hello"; "i" := PInt 3 ]} in
  ∃ b, Bonus_init raw "na" = inr b ∧
       (egg_machine_id (fields b) = None ↔ raw !! "i" = None) ∧
       (raw !! "d" = None → dungeon_id (fields b) = PNone) ∧
       (raw !! "f" = None → dungeon_floor_id (fields b) = PNone) ∧
       (raw !! "a" = None → bonus_value b = PNone) ∧
       message (fields b) = str <$> raw !! "m" ∧
       clean_message (fields b) = strip_colors <$> (str <$> raw !! "m").
Proof.
  intros raw. eexists. split; [vm_compute; reflexivity|].
  apply (Bonus_init_optional_attributes raw "na"). vm_compute. reflexivity.
Defined.

(** [Bonus_init_value] on a [pem_cost] object (category 10) with the raw
    value 5. *)
Lemma Bonus_init_value_witness :
  let raw : gmap string value :=
    {[ "s" := PStr "180801000000"; "e" := PStr "180802000000";
       "b" := PInt 10; "a" := PInt 5 ]} in
  ∃ b, Bonus_init raw "na" = inr b ∧
       ∃ z, int (PInt 5) = inr z ∧ bonus_value b = PInt z.
Proof.
  intros raw. eexists. split; [vm_compute; reflexivity|].
  refine (proj1 (proj2 (proj2 (Bonus_init_value raw "na" _ (PInt 5) _ _))) _).
  - vm_compute. reflexivity.
  - vm_compute. reflexivity.
  - reflexivity.
Defined.

End OnSamples.

Section OnTimestamps.
#[local] Existing Instance Samples.sample_builtins.
#[local] Existing Instance sample_timestamps.

(** [is_open_between_timestamps] on an object that starts at second 100 and
    ends at second 200, at the clock reading 150. *)
Lemma is_open_between_timestamps_witness :
  let raw : gmap string value :=
    {[ "s" := PStr "180801000000"; "e" := PStr "180802000000";
       "b" := PInt 6 ]} in
  ∃ b, Bonus_init raw "na" = inr b ∧
       ∃ t1 t2,
         gh_to_timestamp (str (PStr "180801000000")) "na" = inr t1 ∧
         gh_to_timestamp (str (PStr "180802000000")) "na" = inr t2 ∧
         (is_open b 150 = true ↔ t1 < 150 < t2) ∧
         (t2 ≤ t1 + 1 → is_open b 150 = false).
Proof.
  intros raw. eexists. split; [vm_compute; reflexivity|].
  apply (is_open_between_timestamps raw "na").
  - vm_compute. reflexivity.
  - vm_compute. reflexivity.
  - vm_compute. reflexivity.
Defined.

End OnTimestamps.

End BonusMore.

Module DbMore.
Import Py DbUtil DbRows.

Section Wrapper.
Context {Conn Sql Item : Type} `{SqlItem Item Sql (Conn := Conn)} `{Builtins}.

Lemma get_single_or_no_row_eq (q : Sql) (w : World Conn Sql) :
  get_single_or_no_row q w
  = (match rows (cursor_of w q) with
     | [] => Return None
     | [r] => Return (Some r)
     | _ :: _ :: _ =>
       Raise (GotTooManyResults (Z.of_nat (length (rows (cursor_of w q)))) q)
     end, after w q).
Proof.
  unfold get_single_or_no_row, mbind, M_bind, bind, execute, cursor_of.
  cbn. destruct (rows _) as [|r [|r' l]]; cbn; try reflexivity.
  replace (1 <? Z.of_nat (S (S (length l)))) with true
    by (symmetry; apply Z.ltb_lt; lia).
  reflexivity.
Qed.

(** X12. [get_single_value] is [get_single_or_no_row] followed by the
    reading of the row: it leaves the same world, raises what
    [get_single_or_no_row] raises, turns its [None] into [None] (or into the
    zero-results error, outside dry-run mode with [fail_on_empty]), and
    applies [op] to the only value of the row it returns. *)
Theorem get_single_value_via_row (q : Sql) (op : value → exn + value)
    (fail_on_empty : bool) (w : World Conn Sql) :
  get_single_value q op fail_on_empty w
  = (match (get_single_or_no_row q w).1 with
     | Raise e => Raise e
     | Return None =>
       if dry_run w || negb fail_on_empty then Return PNone
       else Raise (GotZeroResults q)
     | Return (Some r) =>
       match values r with
       | [] => Raise (Raised IndexError)
       | [v] => match op v with
                | inr x => Return x
                | inl e => Raise (Raised e)
                end
       | _ :: _ :: _ => Raise (TooManyColumns q)
       end
     end, (get_single_or_no_row q w).2).
Proof.
  rewrite DbProps.get_single_value_eq, get_single_or_no_row_eq. cbn [fst snd].
  destruct (rows (cursor_of w q)) as [|r [|r' l]]; try reflexivity.
  destruct (values r) as [|v [|v' vs]]; try reflexivity.
  cbn [length].
  replace (1 <? Z.of_nat (S (S (length vs)))) with true
    by (symmetry; apply Z.ltb_lt; lia).
  reflexivity.
Qed.

(** X13. [get_single_or_no_row] against [fetch_data] on the same world:
    both execute the statement once and leave the same world;
    [fetch_data] always returns, and [get_single_or_no_row] returns [None]
    for its empty list, the row for its one-row list, and raises the
    too-many-results error, with the number of rows, for a longer one. *)
Theorem get_single_or_no_row_fetch_data (q : Sql) (w : World Conn Sql) :
  (get_single_or_no_row q w).2 = (fetch_data q w).2 ∧
  executed (fetch_data q w).2 = executed w ++ [q] ∧
  ∃ data, (fetch_data q w).1 = Return data ∧
    (get_single_or_no_row q w).1
    = match data with
      | [] => Return None
      | [r] => Return (Some r)
      | _ :: _ :: _ => Raise (GotTooManyResults (Z.of_nat (length data)) q)
      end.
Proof.
  rewrite get_single_or_no_row_eq.
  unfold fetch_data, mbind, M_bind, bind, execute, ret. cbn.
  split; [reflexivity|]. split; [reflexivity|].
  exists (rows (cursor_of w q)). split; reflexivity.
Qed.

(** Runs [insert_or_update] along each of its paths: [Hr] states what the
    call gives, with the world it leaves. *)
Ltac upsert_paths Hr :=
  unfold insert_or_update, mbind, M_bind, bind, ret in Hr;
  repeat (first
    [ rewrite DbProps.get_single_value_eq in Hr
    | rewrite DbProps.check_existing_eq in Hr
    | rewrite DbProps.insert_item_dry in Hr by (cbn; assumption)
    | rewrite DbProps.insert_item_wet in Hr by (cbn; assumption)
    | match type of Hr with
      | context [match ?x with _ => _ end] =>
        lazymatch x with
        | context [match _ with _ => _ end] => fail
        | _ => destruct x eqn:?
        end
      end ]; cbn [fst snd] in Hr).

Ltac lookups :=
  repeat constructor; (apply exists_sql_kind || apply needs_update_sql_kind).

Ltac a_write :=
  repeat constructor; rewrite ?insert_sql_kind, ?update_sql_kind; discriminate.

Ltac reads_then_writes reads writes :=
  exists reads, writes;
  split_and!;
    [ reflexivity | lookups | cbn; lia | a_write | cbn; lia
    | first [reflexivity | intros; congruence]
    | first [reflexivity | intros; congruence] ].

(** X14. Whatever the record, its strategy and the mode, the statements one
    call of [insert_or_update] passes to the cursor are at most two lookups
    followed by at most one write; in dry-run mode there is no write, and
    outside dry-run mode the generator is not touched. *)
Theorem insert_or_update_reads_then_writes (item : Item) (w : World Conn Sql) :
  ∃ reads writes,
    executed (insert_or_update item w).2 = executed w ++ reads ++ writes ∧
    Forall (λ q, kind_of q = Select) reads ∧ (length reads ≤ 2)%nat ∧
    Forall (λ q, kind_of q ≠ Select) writes ∧ (length writes ≤ 1)%nat ∧
    (dry_run w = true → writes = []) ∧
    (dry_run w = false → draws (insert_or_update item w).2 = draws w).
Proof.
  remember (insert_or_update item w) as r eqn:Hr.
  destruct (dry_run w) eqn:Hdry.
  all: upsert_paths Hr.
  all: subst r; cbn [fst snd executed after drawn draws].
  all: rewrite <- ?app_assoc; cbn [app].
  all: lazymatch goal with
       | |- ∃ _ _, executed _ ++ [?a; ?b; ?c] = _ ∧ _ =>
         reads_then_writes [a; b] [c]
       | |- ∃ _ _, executed _ ++ [?a; ?b] = _ ∧ _ =>
         first [ reads_then_writes [a; b] (@nil Sql)
               | reads_then_writes [a] [b] ]
       | |- ∃ _ _, executed _ ++ [?a] = _ ∧ _ =>
         first [ reads_then_writes [a] (@nil Sql)
               | reads_then_writes (@nil Sql) [a] ]
       | |- ∃ _ _, executed _ = _ ∧ _ =>
         exists [], []; rewrite app_nil_r;
         split_and!;
         first [reflexivity | cbn; lia | constructor | intros; congruence]
       end.
Qed.

(** X15. Outside dry-run mode, a record identified by a foreign key (no
    alternate-key lookup, no local primary key) is inserted when the
    existence lookup finds no row, and the call then returns the
    [lastrowid] of the insert, not the key the record carries; when the
    lookup finds its row, the record's key is returned, after an update if
    the update-need lookup finds no row, and with no write if it finds
    one. *)
Theorem foreign_key_upsert (item : Item) (w : World Conn Sql) :
  dry_run w = false →
  uses_alternate_key_lookup item = false →
  uses_local_primary_key item = false →
  let found := rowcount (cursor_of w (exists_sql item)) in
  let same := rowcount (cursor_of w (needs_update_sql item)) in
  let call := insert_or_update item w in
  (found = 0 → rows (cursor_of w (insert_sql item)) = [] →
   call.1 = Return (PInt (lastrowid (cursor_of w (insert_sql item))), item) ∧
   executed call.2 = executed w ++ [exists_sql item; insert_sql item]) ∧
  (found = 1 → same = 0 → rows (cursor_of w (update_sql item)) = [] →
   call.1 = Return (key_value item, item) ∧
   executed call.2
   = executed w ++ [exists_sql item; needs_update_sql item; update_sql item]) ∧
  (found = 1 → same = 1 →
   call.1 = Return (key_value item, item) ∧
   executed call.2 = executed w ++ [exists_sql item; needs_update_sql item] ∧
   connection call.2 = connection w).
Proof.
  intros Hdry Halt Hloc found same call. subst found same call.
  unfold insert_or_update, mbind, M_bind, bind, ret.
  rewrite Halt, Hloc. cbn [negb].
  rewrite DbProps.check_existing_eq.
  split_and!.
  - intros -> Hrows. cbn [Z.ltb Z.eqb Z.compare Pos.compare Pos.compare_cont negb].
    rewrite DbProps.insert_item_wet by exact Hdry.
    rewrite DbProps.cursor_of_after by apply exists_sql_kind.
    rewrite Hrows. cbn [length]. change (0 <? Z.of_nat 0) with false.
    cbn [fst snd executed after].
    by rewrite <- app_assoc.
  - intros -> Hsame Hrows. cbn [Z.ltb Z.eqb Z.compare Pos.compare Pos.compare_cont negb].
    rewrite DbProps.check_existing_eq.
    rewrite DbProps.cursor_of_after by apply exists_sql_kind.
    rewrite Hsame. cbn [Z.ltb Z.eqb Z.compare Pos.compare Pos.compare_cont negb].
    rewrite DbProps.insert_item_wet by exact Hdry.
    rewrite !DbProps.cursor_of_after
      by (apply exists_sql_kind || apply needs_update_sql_kind).
    rewrite Hrows. cbn [length]. change (0 <? Z.of_nat 0) with false.
    cbn [fst snd executed after].
    by rewrite <- !app_assoc.
  - intros -> Hsame. cbn [Z.ltb Z.eqb Z.compare Pos.compare Pos.compare_cont negb].
    rewrite DbProps.check_existing_eq.
    rewrite DbProps.cursor_of_after by apply exists_sql_kind.
    rewrite Hsame.
    cbn [Z.ltb Z.eqb Z.compare Pos.compare Pos.compare_cont negb fst snd
         executed after connection].
    rewrite <- app_assoc.
    rewrite !select_pure
      by (apply exists_sql_kind || apply needs_update_sql_kind).
    done.
Qed.

Lemma Return_inj {A : Type} (a b : A) :
  @Return Sql A a = Return b → a = b.
Proof. congruence. Qed.

(** X16. What a returning call of [insert_or_update] hands back. With the
    alternate-key lookup, the key that [get_single_value] returns for the
    existence query, [None] or an integer, is stored in the record, and it
    is the returned key when it is truthy; when it is [None] or 0 the
    returned key is what [insert_item] returns for the insert statement of
    the updated record. Without the lookup the record comes back untouched:
    with a local primary key the returned key is what [insert_item] returns
    when the record needs insertion and the record's own key otherwise;
    with a foreign key it is the record's own key when [check_existing]
    finds its row and what [insert_item] returns when it does not. *)
Theorem insert_or_update_returns (item item' : Item) (w : World Conn Sql)
    (k : value) :
  (insert_or_update item w).1 = Return (k, item') →
  if uses_alternate_key_lookup item then
    let lookup := get_single_value (exists_sql item) int_op false w in
    ∃ key, lookup.1 = Return key ∧
           item' = set_key_value item key ∧
           (key = PNone ∨ ∃ z, key = PInt z) ∧
           if truthy key then k = key
           else ∃ z, (insert_item (insert_sql item') lookup.2).1 = Return z ∧
                     k = PInt z
  else if uses_local_primary_key item then
    item' = item ∧
    if needs_insert item
    then ∃ z, (insert_item (insert_sql item) w).1 = Return z ∧ k = PInt z
    else k = key_value item
  else
    let lookup := check_existing (exists_sql item) w in
    item' = item ∧
    ∃ present, lookup.1 = Return present ∧
      if (present : bool) then k = key_value item
      else ∃ z, (insert_item (insert_sql item) lookup.2).1 = Return z ∧
                k = PInt z.
Proof.
  intros Hk.
  remember (insert_or_update item w) as r eqn:Hr.
  destruct (dry_run w) eqn:Hdry.
  all: upsert_paths Hr.
  all: subst r; cbn [fst snd] in Hk; try discriminate.
  all: apply Return_inj, pair_equal_spec in Hk as [<- <-].
  all: repeat match goal with
       | E : negb _ = true |- _ => apply negb_true_iff in E
       | E : negb _ = false |- _ => apply negb_false_iff in E
       end.
  all: cbv zeta.
  all: rewrite ?DbProps.get_single_value_eq, ?DbProps.check_existing_eq.
  all: cbn [fst snd].
  all: rewrite ?DbProps.insert_item_dry by (cbn; assumption).
  all: rewrite ?DbProps.insert_item_wet by (cbn; assumption).
  all: repeat match goal with
       | E : ?x = _ |- context [?x] => rewrite E
       end.
  all: cbn [fst snd negb].
  all: try (split; [reflexivity|]).
  all: try solve [eexists; split; reflexivity].
  all: try solve [eexists; split; [reflexivity|]; eexists; split; reflexivity].
  all: eexists; split; [reflexivity|]; split; [reflexivity|].
  all: repeat match goal with
       | E : int_op ?v = _ |- _ =>
         unfold int_op in E; destruct (int v); [discriminate|];
         apply (inj inr) in E; subst
       end.
  all: split; [first [by left | by (right; eexists)]|].
  all: repeat match goal with E : truthy _ = _ |- _ => rewrite E end.
  all: first [reflexivity | by (eexists; split; reflexivity)].
Qed.

(** X17. [check_existing] and [check_existing_value] on a lookup: they
    leave the same world and raise the too-many-results error together;
    [check_existing] answers [False] exactly when the lookup has no row,
    and [check_existing_value] then returns [None]; when it answers [True]
    for a one-column row, [check_existing_value] returns the value of that
    row, which may itself be [None]. *)
Theorem check_existing_and_value (q : Sql) (w : World Conn Sql) :
  kind_of q = Select →
  (check_existing_value q w).2 = (check_existing q w).2 ∧
  (∀ e, (check_existing q w).1 = Raise e →
        (check_existing_value q w).1 = Raise e ∧
        e = GotTooManyResults (rowcount (cursor_of w q)) q) ∧
  ((check_existing q w).1 = Return false ↔ rows (cursor_of w q) = []) ∧
  ((check_existing q w).1 = Return false →
   (check_existing_value q w).1 = Return PNone) ∧
  (∀ c v, rows (cursor_of w q) = [[(c, v)]] →
          (check_existing q w).1 = Return true ∧
          (check_existing_value q w).1 = Return v).
Proof.
  intros Hq. rewrite DbProps.check_existing_eq.
  unfold check_existing_value, mbind, M_bind, bind, execute, ret, raise.
  cbn [fst snd].
  change (cursor_execute (connection w) q).2 with (cursor_of w q).
  pose proof (DbProps.rows_rowcount w q Hq) as Hn.
  destruct (1 <? rowcount (cursor_of w q)) eqn:Hmany.
  - apply Z.ltb_lt in Hmany. split_and!; try done.
    + intros e E. by injection E as <-.
    + split; [discriminate|]. intros E. rewrite E in Hn. cbn in Hn. lia.
    + intros c v E. rewrite E in Hn. cbn in Hn. lia.
  - apply Z.ltb_ge in Hmany. split_and!.
    + destruct (_ =? 0); [reflexivity|].
      destruct (rows _) as [|r l]; [reflexivity|].
      destruct (1 <? _); [reflexivity|]. by destruct (values r).
    + discriminate.
    + split.
      * intros E. apply Return_inj, negb_false_iff, Z.eqb_eq in E.
        rewrite E in Hn. by destruct (rows _).
      * intros E. rewrite E in Hn. cbn in Hn. by rewrite <- Hn.
    + intros E. apply Return_inj, negb_false_iff in E. by rewrite E.
    + intros c v E. rewrite E in *. cbn in Hn. by rewrite <- Hn.
Qed.

End Wrapper.

End DbMore.

Module StoreMore.
Import Py DbUtil DbRows Store Samples LookupSamples DbMore.

(** [foreign_key_upsert] on a record with the key 1: on an empty store it is
    inserted and the call returns the [lastrowid] 0; on a store that holds
    its row nothing is written and the call returns 1. *)
Lemma foreign_key_upsert_witness :
  (let call := insert_or_update evolution (world false ∅ 0) in
   call.1 = Return (PInt 0, evolution) ∧
   executed call.2 = [exists_sql evolution; insert_sql evolution]) ∧
  (let call := insert_or_update evolution (world false single 0) in
   call.1 = Return (PInt 1, evolution) ∧
   executed call.2 = [exists_sql evolution; needs_update_sql evolution] ∧
   connection call.2 = single).
Proof.
  split; cbv zeta.
  - pose proof (foreign_key_upsert evolution (world false ∅ 0)) as Hfk.
    specialize (Hfk eq_refl eq_refl eq_refl). cbv zeta in Hfk.
    destruct Hfk as (Hins & _ & _).
    destruct Hins as [E1 E2]; [vm_compute; reflexivity..|].
    rewrite E1, E2. split; vm_compute; reflexivity.
  - pose proof (foreign_key_upsert evolution (world false single 0)) as Hfk.
    specialize (Hfk eq_refl eq_refl eq_refl). cbv zeta in Hfk.
    destruct Hfk as (_ & _ & Hsame).
    destruct Hsame as (E1 & E2 & E3); [vm_compute; reflexivity..|].
    rewrite E1, E2, E3. split_and!; reflexivity.
Defined.

(** [insert_or_update_returns] on a record looked up by its name, on a
    store that holds its row under the key 1. *)
Lemma insert_or_update_returns_witness :
  let w := world false single 0 in
  let lookup := get_single_value (exists_sql by_name) int_op false w in
  (insert_or_update by_name w).1
  = Return (PInt 1, set_key_value by_name (PInt 1)) ∧
  ∃ key, lookup.1 = Return key ∧
         set_key_value by_name (PInt 1) = set_key_value by_name key ∧
         (key = PNone ∨ ∃ z, key = PInt z) ∧
         if truthy key then PInt 1 = key
         else ∃ z, (insert_item
                      (insert_sql (set_key_value by_name (PInt 1)))
                      lookup.2).1 = Return z ∧
                   PInt 1 = PInt z.
Proof.
  intros w lookup.
  assert ((insert_or_update by_name w).1
          = Return (PInt 1, set_key_value by_name (PInt 1))) as E
    by (vm_compute; reflexivity).
  split; [exact E|].
  exact (insert_or_update_returns by_name _ w (PInt 1) E).
Defined.

(** [check_existing_and_value] on the existence lookup of a record whose row
    is in the store. *)
Lemma check_existing_and_value_witness :
  let w := world false single 0 in
  (check_existing (exists_sql evolution) w).1 = Return true ∧
  (check_existing_value (exists_sql evolution) w).1 = Return (PInt 1).
Proof.
  cbv zeta.
  pose proof (check_existing_and_value (exists_sql evolution)
                (world false single 0)) as Hboth.
  specialize (Hboth eq_refl). destruct Hboth as (_ & _ & _ & _ & Hrow).
  apply (Hrow "monster_no" (PInt 1)). vm_compute. reflexivity.
Defined.

End StoreMore.

Module BonusFileProps.
Import Py BonusFile.

Lemma prefix_append (n b : string) : String.prefix n (n +:+ b) = true.
Proof.
  induction n as [|c n IH].
  - change ("" +:+ b) with b. by destruct b.
  - change (String c n +:+ b) with (String c (n +:+ b)).
    cbn [String.prefix].
    destruct (Ascii.ascii_dec c c); [exact IH|contradiction].
Qed.

Lemma prefix_inv (n h : string) :
  String.prefix n h = true → ∃ b, h = n +:+ b.
Proof.
  revert h. induction n as [|c n IH]; intros h.
  - intros _. by exists h.
  - destruct h as [|c' h]; cbn; [discriminate|].
    destruct (Ascii.ascii_dec c c') as [<-|]; [|discriminate].
    intros Hp. destruct (IH h Hp) as [b ->]. by exists b.
Qed.

(** [contains] holds exactly of the strings that have the needle somewhere
    inside. *)
Lemma contains_spec (n h : string) :
  contains n h = true ↔ ∃ a b, h = a +:+ n +:+ b.
Proof.
  split.
  - induction h as [|c h IH]; cbn [contains]; rewrite orb_true_iff.
    + intros [Hp|]; [|discriminate]. apply prefix_inv in Hp as [b ->].
      by exists "", b.
    + intros [Hp|Hc].
      * apply prefix_inv in Hp as [b ->]. by exists "", b.
      * destruct (IH Hc) as (a & b & ->). by exists (String c a), b.
  - intros (a & b & ->). induction a as [|c a IH].
    + change ("" +:+ n +:+ b) with (n +:+ b).
      assert (∀ s, contains n s = true ∨ String.prefix n s = false) as Hs
        by (intros [|c s]; cbn [contains]; destruct (String.prefix n _);
            auto).
      destruct (Hs (n +:+ b)) as [E|E]; [exact E|].
      by rewrite prefix_append in E.
    + change (String c a +:+ n +:+ b) with (String c (a +:+ n +:+ b)).
      cbn [contains]. rewrite IH. apply orb_true_r.
Qed.

(** X18. A server that is supplied and not empty is used as it is,
    whatever the path. Without one, a path with ['/na/'] or ['\na\']
    somewhere inside gives ['na'], also when it has a ['jp'] directory as
    well; a path with ['/jp/'] or ['\jp\'] and no ['na'] directory gives
    ['jp']; and any other path raises. *)
Theorem load_bonus_data_server_spec (json_file : string)
    (server : option string) :
  let has (needle : string) := ∃ a b, json_file = a +:+ needle +:+ b in
  let na := has "/na/" ∨ has "\na\" in
  let jp := has "/jp/" ∨ has "\jp\" in
  (∀ s, server = Some s → s ≠ "" →
        load_bonus_data_server json_file server = inr s) ∧
  (server = None ∨ server = Some "" →
   (na → load_bonus_data_server json_file server = inr "na") ∧
   (¬ na → jp → load_bonus_data_server json_file server = inr "jp") ∧
   (¬ na → ¬ jp → load_bonus_data_server json_file server = inl Exception)).
Proof.
  intros has na jp.
  assert (Hin : ∀ n1 n2,
            contains n1 json_file || contains n2 json_file = true
            ↔ has n1 ∨ has n2)
    by (intros n1 n2; rewrite orb_true_iff, !contains_spec; reflexivity).
  split.
  - intros s -> Hs. unfold load_bonus_data_server. cbn.
    destruct (String.eqb_spec s ""); [contradiction|reflexivity].
  - intros Hnone.
    assert (load_bonus_data_server json_file server
            = if contains "/na/" json_file || contains "\na\" json_file
              then inr "na"
              else if contains "/jp/" json_file || contains "\jp\" json_file
              then inr "jp" else inl Exception) as ->
      by (destruct Hnone as [-> | ->]; reflexivity).
    pose proof (Hin "/na/" "\na\") as Hna.
    pose proof (Hin "/jp/" "\jp\") as Hjp.
    fold na in Hna. fold jp in Hjp.
    destruct (contains "/na/" json_file || contains "\na\" json_file);
      destruct (contains "/jp/" json_file || contains "\jp\" json_file).
    all: split_and!; intros; try reflexivity.
    all: exfalso; clear Hin; intuition congruence.
Qed.

(** [load_bonus_data_server_spec] on a path with both directories and no
    server, and on the same path with the server ['jp']. *)
Lemma load_bonus_data_server_spec_witness :
  load_bonus_data_server "data/na/jp/download_limited_bonus_data.json" None
  = inr "na" ∧
  load_bonus_data_server "data/na/jp/download_limited_bonus_data.json"
    (Some "jp")
  = inr "jp".
Proof.
  destruct (load_bonus_data_server_spec
              "data/na/jp/download_limited_bonus_data.json" None)
    as [_ Hpath].
  destruct (load_bonus_data_server_spec
              "data/na/jp/download_limited_bonus_data.json" (Some "jp"))
    as [Hgiven _].
  split.
  - apply Hpath; [by left|].
    left. by exists "data", "jp/download_limited_bonus_data.json".
  - by apply Hgiven.
Defined.

End BonusFileProps.

Module CardFlagsProps.
Import Py CardFlags.

Lemma land_bit (z : Z) (n : Z) :
  0 ≤ n → Z.land z (2 ^ n) = if Z.testbit z n then 2 ^ n else 0.
Proof.
  intros Hn. apply Z.bits_inj'. intros m Hm.
  rewrite Z.land_spec, Z.pow2_bits_eqb by assumption.
  destruct (Z.eqb_spec n m) as [<-|Hne].
  - rewrite andb_true_r. destruct (Z.testbit z n) eqn:E.
    + by rewrite Z.pow2_bits_true.
    + by rewrite Z.bits_0.
  - rewrite andb_false_r. destruct (Z.testbit z n).
    + by rewrite Z.pow2_bits_false.
    + by rewrite Z.bits_0.
Qed.

(** X19. On integer flags, negative ones included, [inheritable] is the
    lowest bit (the flags are odd) and [is_collab] is bit 2; the other bits
    have no say, so the two are independent; flags that are neither an
    integer nor a boolean raise [TypeError]. *)
Theorem flags_are_bits (random_flags : value) :
  (∀ z, random_flags = PInt z →
        inheritable random_flags = inr (Z.odd z) ∧
        is_collab random_flags = inr (Z.testbit z 2)) ∧
  ((∀ z, random_flags ≠ PInt z) → (∀ b, random_flags ≠ PBool b) →
   inheritable random_flags = inl TypeError ∧
   is_collab random_flags = inl TypeError).
Proof.
  split.
  - intros z ->. unfold inheritable, is_collab, flag. split; f_equal.
    + change 1 with (2 ^ 0). rewrite (land_bit z 0) by lia.
      rewrite Z.bit0_odd. by destruct (Z.odd z).
    + change 4 with (2 ^ 2). rewrite (land_bit z 2) by lia.
      by destruct (Z.testbit z 2).
  - intros Hint Hbool. destruct random_flags; try done.
    + by destruct (Hbool b).
    + by destruct (Hint z).
Qed.

(** [flags_are_bits] on the flags 5, -3 and the string ['5']. *)
Lemma flags_are_bits_witness :
  (inheritable (PInt 5) = inr true ∧ is_collab (PInt 5) = inr true) ∧
  (inheritable (PInt (-3)) = inr true ∧ is_collab (PInt (-3)) = inr true) ∧
  (inheritable (PStr "5") = inl TypeError ∧ is_collab (PStr "5") = inl TypeError).
Proof.
  split; [|split].
  - exact (proj1 (flags_are_bits (PInt 5)) 5 eq_refl).
  - exact (proj1 (flags_are_bits (PInt (-3))) (-3) eq_refl).
  - apply (proj2 (flags_are_bits (PStr "5"))); discriminate.
Defined.

End CardFlagsProps.
